(** * Tile-map renderer: viewport, hexagonal geometry, tile cache, layer compositing

    A shallow embedding of package [render] (renderer.go, hexagonal.go).
    Go's [int] is taken at 64 bits and [uint32] at 32 bits, both carried as
    [Z] with the wrap-around written out.  Functions that may return an
    [error] or stop with a run-time panic return a [result]; methods that
    mutate the renderer are state transformers over the renderer. *)

From Stdlib Require Import ZArith Lia Bool List.
From stdpp Require Import base option list strings gmap.

Local Open Scope Z_scope.

(* ================================================================= *)
(** ** Go integers *)

(** Two's-complement normalisation of a mathematical integer to [int]. *)
Definition int_wrap (z : Z) : Z := (z + 2 ^ 63) `mod` 2 ^ 64 - 2 ^ 63.

Definition int_add (x y : Z) : Z := int_wrap (x + y).
Definition int_sub (x y : Z) : Z := int_wrap (x - y).
Definition int_mul (x y : Z) : Z := int_wrap (x * y).
(** Go's [/] truncates toward zero and [%] takes the sign of the dividend. *)
Definition int_quo (x y : Z) : Z := int_wrap (x ÷ y).
Definition int_rem (x y : Z) : Z := Z.rem x y.

Infix "+!" := int_add (at level 50, left associativity).
Infix "-!" := int_sub (at level 50, left associativity).
Infix "*!" := int_mul (at level 40, left associativity).
Infix "/!" := int_quo (at level 40, left associativity).
Infix "%!" := int_rem (at level 40, left associativity).

(** The values an [int] variable can hold. *)
Definition is_int (z : Z) : Prop := - 2 ^ 63 <= z < 2 ^ 63.

(** Conversion to [uint32], and [uint32] addition. *)
Definition uint32 (z : Z) : Z := z `mod` 2 ^ 32.
Definition uint32_add (x y : Z) : Z := uint32 (x + y).

(** [len(s)] of a slice. *)
Definition len {A} (s : list A) : Z := Z.of_nat (length s).

(* ================================================================= *)
(** ** Errors, panics and results *)

(** The package's error values; [ErrExternal] stands for whatever error a
    collaborator (file system, image decoder) hands back. *)
Inductive error : Type :=
| ErrUnsupportedOrientation
| ErrUnsupportedRenderOrder
| ErrOutOfBounds
| ErrExternal (msg : string).

(** Run-time panics the code can reach.  [OutOfMemory] is the runtime's
    fatal error when the memory asked for cannot be had: the process ends,
    which is carried here as a panic that nothing recovers. *)
Inductive panic : Type :=
| IndexOutOfRange (index length : Z)
| NilDereference
| HugeOrNegativeImage
| MakesliceLenOutOfRange
| OutOfMemory.

Inductive result (A : Type) : Type :=
| Ok (a : A)
| Err (e : error)
| Panic (p : panic).
Arguments Ok {A} a.
Arguments Err {A} e.
Arguments Panic {A} p.

#[global] Instance result_ret : MRet result := fun A a => Ok a.
#[global] Instance result_bind : MBind result := fun A B k x =>
  match x with
  | Ok a => k a
  | Err e => Err e
  | Panic p => Panic p
  end.

(** [s[i]] on a slice: panics outside [0, len(s)). *)
Definition index {A} (s : list A) (i : Z) : result A :=
  if (i <? 0) || (len s <=? i) then Panic (IndexOutOfRange i (len s))
  else match s !! Z.to_nat i with
       | Some a => Ok a
       | None => Panic (IndexOutOfRange i (len s))
       end.

(* ================================================================= *)
(** ** The Go runtime's allocator *)

(** Whether the runtime can provide a slice of that many bytes is a fact
    of the machine the program runs on, not of the program. *)
Class Runtime : Type := { can_allocate : Z → bool }.

(** The largest allocation the runtime accepts at all (64-bit: 2^48
    bytes); [make] panics beyond it. *)
Definition maxAlloc : Z := 2 ^ 48.

(* ================================================================= *)
(** ** Package image of Go's library: points, rectangles, NRGBA buffers *)

Module image.

Record Point : Type := Pt { X : Z; Y : Z }.

Record Rectangle : Type := Rectangle_ { Min : Point; Max : Point }.

(** [image.Rectangle{}], the zero rectangle. *)
Definition ZR : Rectangle := Rectangle_ (Pt 0 0) (Pt 0 0).

(** [image.Rect]: the corners are put in order. *)
Definition Rect (x0 y0 x1 y1 : Z) : Rectangle :=
  let '(x0, x1) := if x1 <? x0 then (x1, x0) else (x0, x1) in
  let '(y0, y1) := if y1 <? y0 then (y1, y0) else (y0, y1) in
  Rectangle_ (Pt x0 y0) (Pt x1 y1).

Definition Dx (r : Rectangle) : Z := X (Max r) -! X (Min r).
Definition Dy (r : Rectangle) : Z := Y (Max r) -! Y (Min r).

(** The product of three ints, or -1 when one is negative or the product
    does not fit. *)
Definition mul3NonNeg (x y z : Z) : Z :=
  if (x <? 0) || (y <? 0) || (z <? 0) then -1
  else if 2 ^ 64 <=? x * y then -1
  else if 2 ^ 64 <=? x * y * z then -1
  else if 2 ^ 63 <=? x * y * z then -1
  else x * y * z.

Module NRGBA.
Record t : Type := mk { Pix : list Z; Stride : Z; Rect : Rectangle }.
End NRGBA.

(** [image.NewNRGBA]: a zeroed buffer of four bytes per pixel.  It panics
    on a rectangle with huge or negative dimensions; [make] panics on a
    length beyond [maxAlloc], and the allocation itself fails when the
    runtime cannot provide the bytes. *)
Definition NewNRGBA `{Runtime} (r : Rectangle) : result NRGBA.t :=
  let totalLength := mul3NonNeg 4 (Dx r) (Dy r) in
  if totalLength <? 0 then Panic HugeOrNegativeImage
  else if maxAlloc <? totalLength then Panic MakesliceLenOutOfRange
  else if can_allocate totalLength
  then Ok (NRGBA.mk (replicate (Z.to_nat totalLength) 0) (4 *! Dx r) r)
  else Panic OutOfMemory.

End image.

(* ================================================================= *)
(** ** Package tiled: the map model the renderer reads *)

Module tiled.

(** Modelled from the spec: the stagger axis type and its constants [AxisX]
    and [AxisY] are declared in package tiled, outside these files; a
    hexagonal map's axis is X or Y, and any other value is possible. *)
Inductive Axis : Type := AxisX | AxisY | AxisOther (name : string).

(** A layer's opacity is a floating-point number.  The renderer looks at
    it only through [Opacity < 1] and [uint8(Opacity * 255)], so it is
    carried as these two observations. *)
Record Opacity : Type := { lt_one : bool; alpha255 : Z }.

Module Image.
Record t : Type := mk { Source : string }.
End Image.

Module TilesetTile.
Record t : Type := mk { ID : Z; Image : option Image.t }.
End TilesetTile.

Module Tileset.
Record t : Type := mk {
  FirstGID : Z;
  TileCount : Z;
  Image : option Image.t;
  Tiles : list TilesetTile.t
}.
End Tileset.

Module LayerTile.
Record t : Type := mk {
  ID : Z;
  Tileset : option Tileset.t;
  HorizontalFlip : bool;
  VerticalFlip : bool;
  DiagonalFlip : bool;
  Nil : bool
}.
Definition IsNil (tile : t) : bool := Nil tile.
End LayerTile.

Module Layer.
Record t : Type := mk {
  Tiles : list LayerTile.t;
  Opacity : Opacity;
  Visible : bool
}.
End Layer.

Module Group.
Record t : Type := mk { Layers : list Layer.t }.
End Group.

Module Map.
Record t : Type := mk {
  Orientation : string;
  RenderOrder : string;
  Width : Z;
  Height : Z;
  TileWidth : Z;
  TileHeight : Z;
  StaggerAxis : Axis;
  HexSideLength : Z;
  Layers : list Layer.t;
  Groups : list Group.t
}.
End Map.

End tiled.

(* ================================================================= *)
(** ** Collaborators outside the package *)

(** Decoded images and open files are opaque; the runtime's allocator, the
    imaging and draw libraries, the decoder, the default file system and
    the tileset's path and rectangle helpers are taken as they come. *)
Class Externals : Type := {
  runtime :: Runtime;
  Img : Type;
  File : Type;
  imaging_FlipH : Img → Img;
  imaging_FlipV : Img → Img;
  imaging_Rotate90 : Img → Img;
  imaging_Crop : Img → image.Rectangle → Img;
  Img_Bounds : Img → image.Rectangle;
  image_Decode : File → error + Img;
  os_Open : string → error + File;
  draw_Draw : image.NRGBA.t → image.Rectangle → Img → image.Point → image.NRGBA.t;
  draw_DrawMask : image.NRGBA.t → image.Rectangle → Img → image.Point → Z → image.NRGBA.t;
  GetFileFullPath : tiled.Tileset.t → string → string;
  GetTileRect : tiled.Tileset.t → Z → image.Rectangle
}.

(** An [image.Image] interface value: nil or an image. *)
Definition Image `{Externals} : Type := option Img.

(** Calling into the imaging library with a nil image panics. *)
Definition imaging_on `{Externals} (f : Img → Img) (img : Image) : result Image :=
  match img with
  | Some i => Ok (Some (f i))
  | None => Panic NilDereference
  end.

(* ================================================================= *)
(** ** renderer.go: the viewport *)

Record Bounds : Type := mkBounds {
  offsetX : Z;
  offsetY : Z;
  limitX : Z;
  limitY : Z
}.

Definition SetLimit (b : Bounds) (x y : Z) : Bounds :=
  let b := if 1 <=? x then mkBounds (offsetX b) (offsetY b) x (limitY b) else b in
  let b := if 1 <=? y then mkBounds (offsetX b) (offsetY b) (limitX b) y else b in
  b.

Definition AddOffset (b : Bounds) (x y : Z) : Bounds :=
  let b := mkBounds (offsetX b +! x) (offsetY b) (limitX b) (limitY b) in
  let b := if offsetX b <? 0 then mkBounds 0 (offsetY b) (limitX b) (limitY b) else b in
  let b := mkBounds (offsetX b) (offsetY b +! y) (limitX b) (limitY b) in
  let b := if offsetY b <? 0 then mkBounds (offsetX b) 0 (limitX b) (limitY b) else b in
  b.

(** The interface [RendererEngine]: a value of it is a table of methods
    closed over their receiver. *)
Record RendererEngine `{Externals} : Type := mkEngine {
  GetFinalImageSize : Bounds → image.Rectangle;
  RotateTileImage : tiled.LayerTile.t → Image → result Image;
  GetTilePosition : Z → Z → bool → image.Rectangle
}.

(* ================================================================= *)
(** ** hexagonal.go *)

Module Hexagonal.

Record HexagonalRendererEngine : Type := mk { m : tiled.Map.t }.

Definition Init (m : tiled.Map.t) : HexagonalRendererEngine := mk m.

Definition GetFinalImageSize (e : HexagonalRendererEngine) (bounds : Bounds)
  : image.Rectangle :=
  let TileWidth := tiled.Map.TileWidth (m e) in
  let TileHeight := tiled.Map.TileHeight (m e) in
  let HexSideLength := tiled.Map.HexSideLength (m e) in
  match tiled.Map.StaggerAxis (m e) with
  | tiled.AxisX =>
      let addon := (TileWidth -! HexSideLength) /! 2 in
      image.Rect 0 0
        (limitX bounds *! (TileWidth -! addon) +! addon)
        (limitY bounds *! TileHeight +! TileHeight /! 2)
  | tiled.AxisY =>
      let addon := (TileHeight -! HexSideLength) /! 2 in
      image.Rect 0 0
        (limitX bounds *! TileWidth +! TileWidth /! 2)
        (limitY bounds *! (TileHeight -! addon) +! addon)
  | tiled.AxisOther _ => image.ZR
  end.

Definition RotateTileImage `{Externals} (e : HexagonalRendererEngine)
    (tile : tiled.LayerTile.t) (img : Image) : result Image :=
  let timg := img in
  timg ← (if tiled.LayerTile.HorizontalFlip tile
          then imaging_on imaging_FlipH timg else Ok timg);
  timg ← (if tiled.LayerTile.VerticalFlip tile
          then imaging_on imaging_FlipV timg else Ok timg);
  timg ← (if tiled.LayerTile.DiagonalFlip tile
          then rot ← imaging_on imaging_Rotate90 timg; imaging_on imaging_FlipH rot
          else Ok timg);
  Ok timg.

Definition GetTilePosition (e : HexagonalRendererEngine) (x y : Z) (startOdd : bool)
  : image.Rectangle :=
  let TileWidth := tiled.Map.TileWidth (m e) in
  let TileHeight := tiled.Map.TileHeight (m e) in
  let HexSideLength := tiled.Map.HexSideLength (m e) in
  let oddCheckValue := if startOdd then 0 else 1 in
  match tiled.Map.StaggerAxis (m e) with
  | tiled.AxisX =>
      let oddColumn := (x %! 2) =? oddCheckValue in
      let offsetWidth := (TileWidth -! HexSideLength) /! 2 +! HexSideLength in
      let yBump := if oddColumn then TileHeight /! 2 else 0 in
      image.Rect (x *! offsetWidth)
                 (y *! TileHeight +! yBump)
                 (x *! offsetWidth +! TileWidth)
                 ((y +! 2) *! TileHeight +! yBump)
  | tiled.AxisY =>
      let oddRow := (y %! 2) =? oddCheckValue in
      let offsetHeight := (TileHeight -! HexSideLength) /! 2 +! HexSideLength in
      let xBump := if oddRow then TileWidth /! 2 else 0 in
      image.Rect (x *! TileWidth +! xBump)
                 (y *! offsetHeight)
                 ((x +! 2) *! TileWidth +! xBump)
                 ((y +! 1) *! offsetHeight +! TileHeight)
  | tiled.AxisOther _ => image.ZR
  end.

(** The engine as a value of the interface. *)
Definition engine `{Externals} (e : HexagonalRendererEngine) : RendererEngine :=
  mkEngine _ (GetFinalImageSize e) (RotateTileImage e) (GetTilePosition e).

End Hexagonal.

(* ================================================================= *)
(** ** The orthogonal engine *)

Module Orthogonal.

Record OrthogonalRendererEngine : Type := mk { m : tiled.Map.t }.

Definition Init (m : tiled.Map.t) : OrthogonalRendererEngine := mk m.

(** Modelled from the spec: the orthogonal engine's file is not among the
    sources.  The final image is limitX x tileWidth by limitY x tileHeight
    for render order right-down and the empty rectangle otherwise. *)
Definition GetFinalImageSize (e : OrthogonalRendererEngine) (bounds : Bounds)
  : image.Rectangle :=
  if String.eqb (tiled.Map.RenderOrder (m e)) "right-down"
  then image.Rect 0 0 (limitX bounds *! tiled.Map.TileWidth (m e))
                      (limitY bounds *! tiled.Map.TileHeight (m e))
  else image.ZR.

(** Modelled from the spec: the orthogonal engine's file is not among the
    sources.  Horizontal flip, then vertical flip, then for the diagonal
    flag a quarter turn followed by a horizontal flip. *)
Definition RotateTileImage `{Externals} (e : OrthogonalRendererEngine)
    (tile : tiled.LayerTile.t) (img : Image) : result Image :=
  let timg := img in
  timg ← (if tiled.LayerTile.HorizontalFlip tile
          then imaging_on imaging_FlipH timg else Ok timg);
  timg ← (if tiled.LayerTile.VerticalFlip tile
          then imaging_on imaging_FlipV timg else Ok timg);
  timg ← (if tiled.LayerTile.DiagonalFlip tile
          then rot ← imaging_on imaging_Rotate90 timg; imaging_on imaging_FlipH rot
          else Ok timg);
  Ok timg.

(** Modelled from the spec: the orthogonal engine's file is not among the
    sources.  A tile-sized rectangle with origin (x*tileWidth, y*tileHeight). *)
Definition GetTilePosition (e : OrthogonalRendererEngine) (x y : Z) (startOdd : bool)
  : image.Rectangle :=
  image.Rect (x *! tiled.Map.TileWidth (m e))
             (y *! tiled.Map.TileHeight (m e))
             ((x +! 1) *! tiled.Map.TileWidth (m e))
             ((y +! 1) *! tiled.Map.TileHeight (m e)).

Definition engine `{Externals} (e : OrthogonalRendererEngine) : RendererEngine :=
  mkEngine _ (GetFinalImageSize e) (RotateTileImage e) (GetTilePosition e).

End Orthogonal.

(* ================================================================= *)
(** ** renderer.go: the renderer *)

Module Renderer.
Record t `{Externals} : Type := mk {
  m : tiled.Map.t;
  Result : image.NRGBA.t;
  ResultBounds : Bounds;
  tileCache : gmap Z Img;
  engine : RendererEngine;
  fs : option (string → error + File)
}.
End Renderer.

(** Methods on [*Renderer]: the renderer is threaded through, and it is
    kept as it stands when the method stops with an error or a panic. *)
Definition M `{Externals} (A : Type) : Type := Renderer.t → result A * Renderer.t.

#[global] Instance M_ret `{Externals} : MRet M := fun A a r => (Ok a, r).
#[global] Instance M_bind `{Externals} : MBind M := fun A B k x r =>
  match x r with
  | (Ok a, r') => k a r'
  | (Err e, r') => (Err e, r')
  | (Panic p, r') => (Panic p, r')
  end.

Definition get `{Externals} : M Renderer.t := fun r => (Ok r, r).
Definition put `{Externals} (r : Renderer.t) : M unit := fun _ => (Ok tt, r).
Definition lift `{Externals} {A} (x : result A) : M A := fun r => (x, r).
Definition fail `{Externals} {A} (e : error) : M A := lift (Err e).
Definition of_error `{Externals} {A} (x : error + A) : M A :=
  match x with inl e => fail e | inr a => mret a end.
(** Following a pointer: a nil one panics. *)
Definition deref `{Externals} {A} (p : option A) : M A :=
  match p with Some a => mret a | None => lift (Panic NilDereference) end.

Definition set_Result `{Externals} (b : image.NRGBA.t) (r : Renderer.t) : Renderer.t :=
  Renderer.mk _ (Renderer.m r) b (Renderer.ResultBounds r) (Renderer.tileCache r)
    (Renderer.engine r) (Renderer.fs r).
Definition set_ResultBounds `{Externals} (b : Bounds) (r : Renderer.t) : Renderer.t :=
  Renderer.mk _ (Renderer.m r) (Renderer.Result r) b (Renderer.tileCache r)
    (Renderer.engine r) (Renderer.fs r).
Definition set_tileCache `{Externals} (c : gmap Z Img) (r : Renderer.t) : Renderer.t :=
  Renderer.mk _ (Renderer.m r) (Renderer.Result r) (Renderer.ResultBounds r) c
    (Renderer.engine r) (Renderer.fs r).
Definition set_fs `{Externals} (fs : option (string → error + File)) (r : Renderer.t)
  : Renderer.t :=
  Renderer.mk _ (Renderer.m r) (Renderer.Result r) (Renderer.ResultBounds r)
    (Renderer.tileCache r) (Renderer.engine r) fs.

(** [for i := lo; i < hi; i++ { a = body(i, a) }], leaving at the first
    error or panic.  Inside the loop [i < hi], so [i++] never wraps. *)
Fixpoint for_loop `{Externals} {A} (n : nat) (i : Z) (body : Z → A → M A) (a : A) : M A :=
  match n with
  | O => mret a
  | S n' => a' ← body i a; for_loop n' (i + 1) body a'
  end.

Definition for_range `{Externals} {A} (lo hi : Z) (body : Z → A → M A) (a : A) : M A :=
  for_loop (Z.to_nat (hi - lo)) lo body a.

Definition open `{Externals} (f : string) : M File :=
  r ← get;
  match Renderer.fs r with
  | Some fs => of_error (fs f)
  | None => of_error (os_Open f)
  end.

(** The tile cache's key of local tile [id] in tileset [ts]. *)
Definition cacheKey (ts : tiled.Tileset.t) (id : Z) : Z :=
  uint32_add (tiled.Tileset.FirstGID ts) id.

(** The loop of [getTileImage] over a tileset of single images. *)
Fixpoint loadTileImages `{Externals} (tile : tiled.LayerTile.t) (ts : tiled.Tileset.t)
    (tiles : list tiled.TilesetTile.t) (timg : Image) : M Image :=
  match tiles with
  | [] => mret timg
  | t :: rest =>
      timg ← (if tiled.TilesetTile.ID t =? tiled.LayerTile.ID tile then
                image ← deref (tiled.TilesetTile.Image t);
                sf ← open (GetFileFullPath ts (tiled.Image.Source image));
                timg ← of_error (image_Decode sf);
                r ← get;
                put (set_tileCache
                       (<[cacheKey ts (tiled.LayerTile.ID tile) := timg]> (Renderer.tileCache r)) r);;
                mret (Some timg)
              else mret timg);
      loadTileImages tile ts rest timg
  end.

(** The body of the loop of [getTileImage] over the cells of an atlas. *)
Definition cropTile `{Externals} (tile : tiled.LayerTile.t) (ts : tiled.Tileset.t)
    (img : Img) (i : Z) (timg : Image) : M Image :=
  let rect := GetTileRect ts i in
  r ← get;
  put (set_tileCache
         (<[uint32_add i (tiled.Tileset.FirstGID ts) := imaging_Crop img rect]>
            (Renderer.tileCache r)) r);;
  r ← get;
  mret (if tiled.LayerTile.ID tile =? i
        then Renderer.tileCache r !! uint32_add i (tiled.Tileset.FirstGID ts)
        else timg).

Definition getTileImage `{Externals} (tile : tiled.LayerTile.t) : M Image :=
  ts ← deref (tiled.LayerTile.Tileset tile);
  r ← get;
  match Renderer.tileCache r !! cacheKey ts (tiled.LayerTile.ID tile) with
  | Some timg => lift (RotateTileImage (Renderer.engine r) tile (Some timg))
  | None =>
      timg ← match tiled.Tileset.Image ts with
             | None => loadTileImages tile ts (tiled.Tileset.Tiles ts) None
             | Some image =>
                 sf ← open (GetFileFullPath ts (tiled.Image.Source image));
                 img ← of_error (image_Decode sf);
                 for_range 0 (uint32 (tiled.Tileset.TileCount ts)) (cropTile tile ts img) None
             end;
      r ← get;
      lift (RotateTileImage (Renderer.engine r) tile timg)
  end.

(** [img.Bounds()] on a nil image panics before anything is drawn.  The
    draw operator is always [draw.Over] and the mask's own origin is fixed;
    both are part of the collaborator. *)
Definition _renderTile `{Externals} (layer : tiled.Layer.t) (i x y : Z) (startOdd : bool)
  : M unit :=
  tile ← lift (index (tiled.Layer.Tiles layer) i);
  if tiled.LayerTile.IsNil tile then mret tt
  else
    img ← getTileImage tile;
    r ← get;
    let pos := GetTilePosition (Renderer.engine r) x y startOdd in
    if tiled.lt_one (tiled.Layer.Opacity layer) then
      let mask := tiled.alpha255 (tiled.Layer.Opacity layer) in
      img ← deref img;
      put (set_Result
             (draw_DrawMask (Renderer.Result r) pos img (image.Min (Img_Bounds img)) mask) r)
    else
      img ← deref img;
      put (set_Result
             (draw_Draw (Renderer.Result r) pos img (image.Min (Img_Bounds img))) r).

(** The counter [cnt] of the source is written and never read; it is left out. *)
Definition _renderLayer `{Externals} (layer : tiled.Layer.t) : M unit :=
  r ← get;
  let m := Renderer.m r in
  let b := Renderer.ResultBounds r in
  if (String.eqb (tiled.Map.Orientation m) "hexagonal"
      || String.eqb (tiled.Map.Orientation m) "orthogonal")
     && String.eqb (tiled.Map.RenderOrder m) "right-down"
  then
    let xs := offsetX b in
    let xe := offsetX b +! limitX b in
    let xe := if tiled.Map.Width m <? xe then tiled.Map.Width m else xe in
    let ys := offsetY b in
    let ye := offsetY b +! limitY b in
    let ye := if tiled.Map.Height m <? ye then tiled.Map.Height m else ye in
    let startOdd := (offsetY b %! 2) =? 1 in
    for_range ys ye (fun y _ =>
      for_range xs xe (fun x _ =>
        let i := y *! tiled.Map.Width m +! x in
        _renderTile layer i (x -! xs) (y -! ys) startOdd) tt) tt
  else fail ErrUnsupportedRenderOrder.

Definition RenderGroupLayer `{Externals} (groupID layerID : Z) : M unit :=
  r ← get;
  if len (tiled.Map.Groups (Renderer.m r)) <=? groupID then fail ErrOutOfBounds
  else
    group ← lift (index (tiled.Map.Groups (Renderer.m r)) groupID);
    if len (tiled.Group.Layers group) <=? layerID then fail ErrOutOfBounds
    else
      layer ← lift (index (tiled.Group.Layers group) layerID);
      _renderLayer layer.

Definition RenderLayer `{Externals} (id : Z) : M unit :=
  r ← get;
  if len (tiled.Map.Layers (Renderer.m r)) <=? id then fail ErrOutOfBounds
  else
    layer ← lift (index (tiled.Map.Layers (Renderer.m r)) id);
    _renderLayer layer.

Definition RenderVisibleLayers `{Externals} : M unit :=
  r ← get;
  for_range 0 (len (tiled.Map.Layers (Renderer.m r))) (fun i _ =>
    layer ← lift (index (tiled.Map.Layers (Renderer.m r)) i);
    if negb (tiled.Layer.Visible layer) then mret tt
    else RenderLayer i) tt.

Definition Clear `{Externals} : M unit :=
  r ← get;
  buf ← lift (image.NewNRGBA (GetFinalImageSize (Renderer.engine r) (Renderer.ResultBounds r)));
  put (set_Result buf r).

(** The constructor runs on a renderer whose buffer is still nil; the
    buffer is first read after [Clear] has set it, so it is built with the
    result of the allocation. *)
Definition NewRendererWithFileSystem `{Externals} (m : tiled.Map.t)
    (fs : option (string → error + File)) : result Renderer.t :=
  engine ← (if String.eqb (tiled.Map.Orientation m) "orthogonal"
            then Ok (Orthogonal.engine (Orthogonal.Init m))
            else if String.eqb (tiled.Map.Orientation m) "hexagonal"
            then Ok (Hexagonal.engine (Hexagonal.Init m))
            else Err ErrUnsupportedOrientation);
  let ResultBounds := mkBounds 0 0 (tiled.Map.Width m) (tiled.Map.Height m) in
  buf ← image.NewNRGBA (GetFinalImageSize engine ResultBounds);
  Ok (Renderer.mk _ m buf ResultBounds ∅ engine fs).

Definition NewRenderer `{Externals} (m : tiled.Map.t) : result Renderer.t :=
  NewRendererWithFileSystem m None.

(* ================================================================= *)
(** ** A small world to run the renderer in *)

(** Images are grids of pixel values, the disk holds three image files,
    and drawing is a recording double: each draw appends the corners of its
    destination rectangle to the buffer's bytes, so that a run shows where
    it drew. *)
Module Fixture.

Definition grid : Type := list (list Z).

Definition FlipH (g : grid) : grid := map (@rev Z) g.
Definition FlipV (g : grid) : grid := rev g.
Definition width (g : grid) : nat := length (hd [] g).
Definition column (k : nat) (g : grid) : list Z := map (fun row => nth k row 0) g.
(** A quarter turn counter-clockwise: the last column becomes the first row. *)
Definition Rotate90 (g : grid) : grid :=
  map (fun k => column (width g - 1 - k) g) (seq 0 (width g)).
Definition Crop (g : grid) (r : image.Rectangle) : grid :=
  let x0 := Z.to_nat (image.X (image.Min r)) in
  let y0 := Z.to_nat (image.Y (image.Min r)) in
  map (fun row => firstn (Z.to_nat (image.Dx r)) (skipn x0 row))
      (firstn (Z.to_nat (image.Dy r)) (skipn y0 g)).
Definition Bounds_of (g : grid) : image.Rectangle :=
  image.Rect 0 0 (Z.of_nat (width g)) (Z.of_nat (length g)).

Definition atlas_png : grid := [[1; 2; 3; 4]; [5; 6; 7; 8]].
Definition a_png : grid := [[10; 11]; [12; 13]].
Definition b_png : grid := [[20; 21]; [22; 23]].

Definition disk (f : string) : error + grid :=
  if String.eqb f "atlas.png" then inr atlas_png
  else if String.eqb f "a.png" then inr a_png
  else if String.eqb f "b.png" then inr b_png
  else inl (ErrExternal "file does not exist").

Definition record_draw (dst : image.NRGBA.t) (r : image.Rectangle) : image.NRGBA.t :=
  image.NRGBA.mk
    (image.NRGBA.Pix dst ++
       [image.X (image.Min r); image.Y (image.Min r);
        image.X (image.Max r); image.Y (image.Max r)])
    (image.NRGBA.Stride dst) (image.NRGBA.Rect dst).

(** The machine of the small world has a gibibyte to give. *)
Definition machine : Runtime := {| can_allocate := fun n => n <=? 2 ^ 30 |}.

Definition world : Externals := {|
  runtime := machine;
  Img := grid;
  File := grid;
  imaging_FlipH := FlipH;
  imaging_FlipV := FlipV;
  imaging_Rotate90 := Rotate90;
  imaging_Crop := Crop;
  Img_Bounds := Bounds_of;
  image_Decode := inr;
  os_Open := disk;
  draw_Draw := fun dst r _ _ => record_draw dst r;
  draw_DrawMask := fun dst r _ _ _ => record_draw dst r;
  GetFileFullPath := fun _ f => f;
  GetTileRect := fun _ i => image.Rect (2 * i) 0 (2 * i + 2) 2
|}.

Definition opaque : tiled.Opacity := {| tiled.lt_one := false; tiled.alpha255 := 255 |}.

(** A tileset of two single-image tiles and a tileset cut from an atlas. *)
Definition singles : tiled.Tileset.t :=
  tiled.Tileset.mk 1 2 None
    [tiled.TilesetTile.mk 0 (Some (tiled.Image.mk "a.png"));
     tiled.TilesetTile.mk 1 (Some (tiled.Image.mk "b.png"))].
Definition atlas : tiled.Tileset.t :=
  tiled.Tileset.mk 1 2 (Some (tiled.Image.mk "atlas.png")) [].

Definition tile_of (ts : tiled.Tileset.t) (id : Z) : tiled.LayerTile.t :=
  tiled.LayerTile.mk id (Some ts) false false false false.
Definition NilLayerTile : tiled.LayerTile.t :=
  tiled.LayerTile.mk 0 None false false false true.

(** A hexagonal map of 2 x 2 cells of 4 x 4 pixels with one layer; the
    cells of the first column are empty. *)
Definition layer0 : tiled.Layer.t :=
  tiled.Layer.mk [NilLayerTile; tile_of atlas 0; NilLayerTile; tile_of atlas 1] opaque true.
Definition hexmap (axis : tiled.Axis) : tiled.Map.t :=
  tiled.Map.mk "hexagonal" "right-down" 2 2 4 4 axis 2
    [layer0] [tiled.Group.mk [layer0]].

(** The renderer [NewRenderer] builds for the map (the allocation of its
    buffer succeeds, see [new_renderer_ok]). *)
Definition new_renderer (axis : tiled.Axis) : @Renderer.t world :=
  match @NewRenderer world (hexmap axis) with
  | Ok r => r
  | _ => Renderer.mk world (hexmap axis) (image.NRGBA.mk [] 0 image.ZR) (mkBounds 0 0 0 0) ∅
           (@Hexagonal.engine world (Hexagonal.Init (hexmap axis))) None
  end.

Definition new_renderer_ok (axis : tiled.Axis) : bool :=
  match @NewRenderer world (hexmap axis) with Ok _ => true | _ => false end.

(** The same renderer after the viewport was moved by [offset] and cleared. *)
Definition renderer (axis : tiled.Axis) (offset : Z * Z) : @Renderer.t world :=
  let r := new_renderer axis in
  let b := AddOffset (Renderer.ResultBounds r) (fst offset) (snd offset) in
  snd (@Clear world (set_ResultBounds b r)).

(** What the recording double wrote behind the buffer's own bytes: the
    corners (x0, y0, x1, y1) of every rectangle drawn into, in order. *)
Definition recorded (r : @Renderer.t world) : list Z :=
  let buf := Renderer.Result r in
  skipn (Z.to_nat (image.mul3NonNeg 4 (image.Dx (image.NRGBA.Rect buf))
                                      (image.Dy (image.NRGBA.Rect buf))))
        (image.NRGBA.Pix buf).

End Fixture.

(* ================================================================= *)
(** ** More renderers and layers of the small world *)

Module Cases.

(** A renderer of the hexagonal map written down field by field, with a
    buffer not yet allocated, a given cache and a given file system. *)
Definition plain (axis : tiled.Axis) (cache : gmap Z Fixture.grid)
    (fs : option (string → error + Fixture.grid)) : @Renderer.t Fixture.world :=
  Renderer.mk Fixture.world (Fixture.hexmap axis) (image.NRGBA.mk [] 0 image.ZR)
    (mkBounds 0 0 2 2) cache
    (@Hexagonal.engine Fixture.world (Hexagonal.Init (Fixture.hexmap axis))) fs.

(** A file system on which nothing can be opened. *)
Definition locked (f : string) : error + Fixture.grid := inl (ErrExternal "permission denied").

(** The same renderer on a map with another orientation or render order. *)
Definition on_map (orientation order : string) : @Renderer.t Fixture.world :=
  let m := tiled.Map.mk orientation order 2 2 4 4 tiled.AxisX 2
             [Fixture.layer0] [tiled.Group.mk [Fixture.layer0]] in
  Renderer.mk Fixture.world m (image.NRGBA.mk [] 0 image.ZR) (mkBounds 0 0 2 2) ∅
    (@Hexagonal.engine Fixture.world (Hexagonal.Init m)) None.

Definition isometric : tiled.Map.t :=
  tiled.Map.mk "isometric" "right-down" 2 2 4 4 tiled.AxisX 2 [] [].

(** Layers: one of empty cells, one with no tiles at all, and layers whose
    first or last cell holds a given tile. *)
Definition empty_cells : tiled.Layer.t :=
  tiled.Layer.mk [Fixture.NilLayerTile; Fixture.NilLayerTile;
                  Fixture.NilLayerTile; Fixture.NilLayerTile] Fixture.opaque true.
Definition no_tiles : tiled.Layer.t := tiled.Layer.mk [] Fixture.opaque true.
Definition starts_with (tile : tiled.LayerTile.t) : tiled.Layer.t :=
  tiled.Layer.mk [tile; Fixture.NilLayerTile; Fixture.NilLayerTile; Fixture.NilLayerTile]
    Fixture.opaque true.

Definition ends_with (tile : tiled.LayerTile.t) : tiled.Layer.t :=
  tiled.Layer.mk [Fixture.NilLayerTile; Fixture.NilLayerTile; Fixture.NilLayerTile; tile]
    Fixture.opaque true.

(** Tile 0 of the single images, flipped horizontally. *)
Definition flipped : tiled.LayerTile.t :=
  tiled.LayerTile.mk 0 (Some Fixture.singles) true false false false.

End Cases.

(* ================================================================= *)
(** ** Vocabulary of the statements *)

(** Sizes a map and a viewport can sensibly hold: at least one and small
    enough for every product of two of them to stay an int. *)
Definition sensible (z : Z) : Prop := 1 <= z <= 2 ^ 30.

(** What the renderer's file system, or the default one, answers for a path. *)
Definition opened `{Externals} (r : Renderer.t) (f : string) : error + File :=
  match Renderer.fs r with
  | Some fs => fs f
  | None => os_Open f
  end.

(** What opening and decoding the image file [source] of tileset [ts] gives. *)
Definition loads `{Externals} (r : Renderer.t) (ts : tiled.Tileset.t) (source : string)
  : error + Img :=
  match opened r (GetFileFullPath ts source) with
  | inl e => inl e
  | inr sf => image_Decode sf
  end.

(** [r'] is [r] after some rendering: the map, the viewport, the engine and
    the file system are the same, and every key of the tile cache is still
    there.  Only the output buffer and the cache's contents may differ. *)
Definition preserved `{Externals} (r r' : Renderer.t) : Prop :=
  Renderer.m r' = Renderer.m r
  ∧ Renderer.ResultBounds r' = Renderer.ResultBounds r
  ∧ Renderer.engine r' = Renderer.engine r
  ∧ Renderer.fs r' = Renderer.fs r
  ∧ ∀ k, is_Some (Renderer.tileCache r !! k) → is_Some (Renderer.tileCache r' !! k).

(** A method keeps the renderer when whatever it returns, and however it
    stops, the renderer it leaves is the one it was given, in that sense. *)
Definition keeps `{Externals} {A} (x : M A) : Prop :=
  ∀ r, preserved r (snd (x r)).

(** Sizes for which the whole image of a map stays below the runtime's
    largest allocation: at least one and at most 2^10 tiles or pixels. *)
Definition modest (z : Z) : Prop := 1 <= z <= 2 ^ 10.

(** The image of a tile as it is drawn: the source flipped horizontally,
    then vertically, then turned and flipped for the diagonal flag. *)
Definition oriented `{Externals} (tile : tiled.LayerTile.t) (img : Img) : Img :=
  let img := if tiled.LayerTile.HorizontalFlip tile then imaging_FlipH img else img in
  let img := if tiled.LayerTile.VerticalFlip tile then imaging_FlipV img else img in
  if tiled.LayerTile.DiagonalFlip tile then imaging_FlipH (imaging_Rotate90 img) else img.

(** The cell [i] of the atlas [img] of tileset [ts]. *)
Definition cell `{Externals} (ts : tiled.Tileset.t) (img : Img) (i : Z) : Img :=
  imaging_Crop img (GetTileRect ts i).

(** RenderLayer on each index of a list in turn, stopping at the first
    error or panic. *)
Fixpoint renderLayers `{Externals} (ids : list Z) : M unit :=
  match ids with
  | [] => mret tt
  | id :: rest => RenderLayer id ≫= λ _, renderLayers rest
  end.

(** The indices, counted from [i], of the layers whose visibility flag is set. *)
Fixpoint visible_from (i : Z) (layers : list tiled.Layer.t) : list Z :=
  match layers with
  | [] => []
  | layer :: rest =>
      if tiled.Layer.Visible layer then i :: visible_from (i + 1) rest
      else visible_from (i + 1) rest
  end.

(* ================================================================= *)
(** * Properties *)

(** ** Go integers *)

Lemma int_wrap_small (z : Z) : is_int z → int_wrap z = z.
Proof.
  unfold is_int, int_wrap. intros Hz.
  rewrite Z.mod_small; lia.
Qed.

Lemma int_wrap_is_int (z : Z) : is_int (int_wrap z).
Proof.
  unfold is_int, int_wrap.
  pose proof (Z.mod_pos_bound (z + 2 ^ 63) (2 ^ 64)). lia.
Qed.

Lemma int_wrap_add_l (x y : Z) : int_wrap (int_wrap x + y) = int_wrap (x + y).
Proof.
  unfold int_wrap. f_equal.
  replace ((x + 2 ^ 63) `mod` 2 ^ 64 - 2 ^ 63 + y + 2 ^ 63)
    with ((x + 2 ^ 63) `mod` 2 ^ 64 + y) by lia.
  rewrite Zplus_mod_idemp_l. f_equal. lia.
Qed.

Lemma int_add_assoc (x y z : Z) : x +! y +! z = x +! (y +! z).
Proof.
  unfold int_add. rewrite int_wrap_add_l.
  rewrite (Z.add_comm x (int_wrap _)), int_wrap_add_l. f_equal. lia.
Qed.

Lemma int_add_small (x y : Z) : is_int (x + y) → x +! y = x + y.
Proof. apply int_wrap_small. Qed.

Lemma int_sub_small (x y : Z) : is_int (x - y) → x -! y = x - y.
Proof. apply int_wrap_small. Qed.

Lemma int_mul_small (x y : Z) : is_int (x * y) → x *! y = x * y.
Proof. apply int_wrap_small. Qed.

Lemma int_quo_small (x y : Z) : is_int (x ÷ y) → x /! y = x ÷ y.
Proof. apply int_wrap_small. Qed.

(** Half of an int, rounded toward zero, lies between zero and the int. *)
Lemma quot2_bounds (z : Z) :
  (0 <= z → 0 <= z ÷ 2 <= z ∧ z - 1 <= 2 * (z ÷ 2) <= z)
  ∧ (z <= 0 → z <= z ÷ 2 <= 0 ∧ z <= 2 * (z ÷ 2) <= z + 1).
Proof.
  split; intros Hz; Z.to_euclidean_division_equations; lia.
Qed.

(** ** The viewport *)

(** C7: SetLimit sets limitX to x only when x >= 1 and limitY to y only when
    y >= 1, each axis on its own; a request of 0 or less on an axis keeps
    that axis's limit, and the offsets are never touched. *)
Theorem SetLimit_only_positive (b : Bounds) (x y : Z) :
  (1 <= x → limitX (SetLimit b x y) = x)
  ∧ (x <= 0 → limitX (SetLimit b x y) = limitX b)
  ∧ (1 <= y → limitY (SetLimit b x y) = y)
  ∧ (y <= 0 → limitY (SetLimit b x y) = limitY b)
  ∧ offsetX (SetLimit b x y) = offsetX b
  ∧ offsetY (SetLimit b x y) = offsetY b.
Proof.
  unfold SetLimit.
  destruct (Z.leb_spec 1 x), (Z.leb_spec 1 y); destruct b; simpl;
    repeat split; intros; lia.
Qed.

Lemma SetLimit_only_positive_witness :
  limitX (SetLimit (mkBounds 3 4 5 6) 0 9) = 5
  ∧ limitY (SetLimit (mkBounds 3 4 5 6) 0 9) = 9.
Proof.
  pose proof (SetLimit_only_positive (mkBounds 3 4 5 6) 0 9) as (_ & HX & HY & _).
  split; [apply HX; lia | apply HY; lia].
Defined.

Lemma AddOffset_fields (b : Bounds) (x y : Z) :
  AddOffset b x y =
    mkBounds (Z.max 0 (offsetX b +! x)) (Z.max 0 (offsetY b +! y)) (limitX b) (limitY b).
Proof.
  unfold AddOffset. destruct b as [ox oy lx ly]; simpl.
  destruct (Z.ltb_spec (ox +! x) 0); simpl;
    destruct (Z.ltb_spec (oy +! y) 0); simpl; f_equal; lia.
Qed.

(** C8: AddOffset adds x and y to the offsets (int addition) and clamps
    each sum to >= 0, so no offset is negative afterwards; the limits stay;
    AddOffset(-100,-100) from offset (0,0) gives offset (0,0); and offsets
    accumulate: as long as the first move is not clamped, two moves in a
    row are one move by the sum. *)
Theorem AddOffset_clamps_and_accumulates (b : Bounds) (x y : Z) :
  offsetX (AddOffset b x y) = Z.max 0 (offsetX b +! x)
  ∧ offsetY (AddOffset b x y) = Z.max 0 (offsetY b +! y)
  ∧ (is_int (offsetX b + x) → offsetX (AddOffset b x y) = Z.max 0 (offsetX b + x))
  ∧ (is_int (offsetY b + y) → offsetY (AddOffset b x y) = Z.max 0 (offsetY b + y))
  ∧ 0 <= offsetX (AddOffset b x y)
  ∧ 0 <= offsetY (AddOffset b x y)
  ∧ limitX (AddOffset b x y) = limitX b
  ∧ limitY (AddOffset b x y) = limitY b
  ∧ AddOffset (mkBounds 0 0 (limitX b) (limitY b)) (-100) (-100)
    = mkBounds 0 0 (limitX b) (limitY b)
  ∧ (∀ x' y', 0 <= offsetX b +! x → 0 <= offsetY b +! y →
       AddOffset (AddOffset b x y) x' y' = AddOffset b (x +! x') (y +! y')).
Proof.
  rewrite AddOffset_fields; simpl.
  repeat split; try lia.
  - intros Hi. by rewrite int_add_small.
  - intros Hi. by rewrite int_add_small.
  - intros x' y' Hx Hy. rewrite !AddOffset_fields; simpl.
    rewrite (Z.max_r 0 (offsetX b +! x)), (Z.max_r 0 (offsetY b +! y)) by lia.
    by rewrite !int_add_assoc.
Qed.

Lemma AddOffset_clamps_and_accumulates_witness :
  AddOffset (AddOffset (mkBounds 1 1 5 5) 2 (-1)) (-7) 3 = mkBounds 0 3 5 5.
Proof.
  pose proof (AddOffset_clamps_and_accumulates (mkBounds 1 1 5 5) 2 (-1))
    as (_ & _ & _ & _ & _ & _ & _ & _ & _ & Hacc).
  rewrite (Hacc (-7) 3); [reflexivity | vm_compute; discriminate | vm_compute; discriminate].
Defined.

(** ** The hexagonal engine *)

Lemma Rect_ordered (x0 y0 x1 y1 : Z) :
  x0 <= x1 → y0 <= y1 →
  image.Rect x0 y0 x1 y1 = image.Rectangle_ (image.Pt x0 y0) (image.Pt x1 y1).
Proof.
  intros Hx Hy. unfold image.Rect.
  destruct (Z.ltb_spec x1 x0); [lia|]. destruct (Z.ltb_spec y1 y0); [lia|]. done.
Qed.

(** The final image size in Go's arithmetic, whatever the map holds. *)
Lemma hexagonal_final_size_eq (m : tiled.Map.t) (b : Bounds) :
  Hexagonal.GetFinalImageSize (Hexagonal.Init m) b =
    match tiled.Map.StaggerAxis m with
    | tiled.AxisX =>
        let addon := (tiled.Map.TileWidth m -! tiled.Map.HexSideLength m) /! 2 in
        image.Rect 0 0
          (limitX b *! (tiled.Map.TileWidth m -! addon) +! addon)
          (limitY b *! tiled.Map.TileHeight m +! tiled.Map.TileHeight m /! 2)
    | tiled.AxisY =>
        let addon := (tiled.Map.TileHeight m -! tiled.Map.HexSideLength m) /! 2 in
        image.Rect 0 0
          (limitX b *! tiled.Map.TileWidth m +! tiled.Map.TileWidth m /! 2)
          (limitY b *! (tiled.Map.TileHeight m -! addon) +! addon)
    | tiled.AxisOther _ => image.ZR
    end.
Proof. reflexivity. Qed.

(** The arithmetic of one axis: with tiles of [t] pixels, hexagon side [s]
    and [l] tiles, the staggered extent is computed without overflow and is
    positive. *)
Lemma staggered_extent (t s l : Z) :
  sensible t → 0 <= s <= 2 ^ 30 → sensible l →
  let addon := (t - s) ÷ 2 in
  l *! (t -! (t -! s) /! 2) +! (t -! s) /! 2 = l * (t - addon) + addon
  ∧ 0 < l * (t - addon) + addon < 2 ^ 62.
Proof.
  intros Ht Hs Hl addon. unfold sensible in *.
  assert (Haddon : - 2 ^ 29 <= addon <= 2 ^ 29 ∧ 2 * addon <= t) .
  { subst addon. destruct (quot2_bounds (t - s)) as [Hp Hn].
    destruct (Z.le_ge_cases 0 (t - s)) as [H|H]; [specialize (Hp H)|specialize (Hn H)]; lia. }
  assert (Hprod : 0 < l * (t - addon) <= 2 ^ 30 * (2 ^ 30 + 2 ^ 29)).
  { split; [nia|]. apply Z.mul_le_mono_nonneg; lia. }
  assert (Hge : t - addon <= l * (t - addon)) by nia.
  rewrite (int_sub_small t s) by (unfold is_int; lia).
  rewrite (int_quo_small (t - s) 2) by (unfold is_int; fold addon; lia).
  fold addon.
  rewrite (int_sub_small t addon) by (unfold is_int; lia).
  rewrite (int_mul_small l (t - addon)) by (unfold is_int; lia).
  rewrite int_add_small by (unfold is_int; lia).
  split; [done | lia].
Qed.

(** The extent along the other axis: [l] tiles of [t] pixels and half a tile. *)
Lemma plain_extent (t l : Z) :
  sensible t → sensible l →
  l *! t +! t /! 2 = l * t + t ÷ 2 ∧ 0 < l * t + t ÷ 2 < 2 ^ 62.
Proof.
  unfold sensible. intros Ht Hl.
  destruct (quot2_bounds t) as [Hp _]. specialize (Hp ltac:(lia)).
  assert (Hprod : 0 < l * t <= 2 ^ 30 * 2 ^ 30).
  { split; [nia|]. apply Z.mul_le_mono_nonneg; lia. }
  rewrite (int_quo_small t 2) by (unfold is_int; lia).
  rewrite (int_mul_small l t) by (unfold is_int; lia).
  rewrite int_add_small by (unfold is_int; lia).
  split; [done | lia].
Qed.

Lemma Dx_from_origin (w h : Z) :
  0 <= w < 2 ^ 63 → image.Dx (image.Rectangle_ (image.Pt 0 0) (image.Pt w h)) = w.
Proof. intros Hw. unfold image.Dx; simpl. rewrite int_sub_small; unfold is_int; lia. Qed.

Lemma Dy_from_origin (w h : Z) :
  0 <= h < 2 ^ 63 → image.Dy (image.Rectangle_ (image.Pt 0 0) (image.Pt w h)) = h.
Proof. intros Hh. unfold image.Dy; simpl. rewrite int_sub_small; unfold is_int; lia. Qed.

(** C4: for a hexagonal map, GetFinalImageSize is, for stagger axis X with
    addon = (tileWidth - hexSideLength) / 2, the rectangle from the origin
    of width limitX*(tileWidth-addon)+addon and height
    limitY*tileHeight + tileHeight/2; for stagger axis Y with
    addon = (tileHeight - hexSideLength) / 2, of width
    limitX*tileWidth + tileWidth/2 and height limitY*(tileHeight-addon)+addon;
    and for any other stagger axis the empty rectangle.  Sizes are positive
    and at most 2^30, so that Go's arithmetic is the integers'. *)
Theorem hexagonal_final_image_size (m : tiled.Map.t) (b : Bounds) :
  let e := Hexagonal.Init m in
  let tw := tiled.Map.TileWidth m in
  let th := tiled.Map.TileHeight m in
  let side := tiled.Map.HexSideLength m in
  sensible tw → sensible th → 0 <= side <= 2 ^ 30 →
  sensible (limitX b) → sensible (limitY b) →
  (tiled.Map.StaggerAxis m = tiled.AxisX →
     let addon := (tw - side) ÷ 2 in
     let w := limitX b * (tw - addon) + addon in
     let h := limitY b * th + th ÷ 2 in
     Hexagonal.GetFinalImageSize e b = image.Rectangle_ (image.Pt 0 0) (image.Pt w h)
     ∧ image.Dx (Hexagonal.GetFinalImageSize e b) = w
     ∧ image.Dy (Hexagonal.GetFinalImageSize e b) = h)
  ∧ (tiled.Map.StaggerAxis m = tiled.AxisY →
     let addon := (th - side) ÷ 2 in
     let w := limitX b * tw + tw ÷ 2 in
     let h := limitY b * (th - addon) + addon in
     Hexagonal.GetFinalImageSize e b = image.Rectangle_ (image.Pt 0 0) (image.Pt w h)
     ∧ image.Dx (Hexagonal.GetFinalImageSize e b) = w
     ∧ image.Dy (Hexagonal.GetFinalImageSize e b) = h)
  ∧ (∀ name, tiled.Map.StaggerAxis m = tiled.AxisOther name →
     Hexagonal.GetFinalImageSize e b = image.ZR).
Proof.
  intros e tw th side Htw Hth Hside HlX HlY.
  subst e. rewrite hexagonal_final_size_eq. fold tw th side.
  destruct (staggered_extent tw side (limitX b) Htw Hside HlX) as [HwX ?].
  destruct (plain_extent th (limitY b) Hth HlY) as [HhX ?].
  destruct (plain_extent tw (limitX b) Htw HlX) as [HwY ?].
  destruct (staggered_extent th side (limitY b) Hth Hside HlY) as [HhY ?].
  split; [|split].
  - intros ->. cbv zeta. rewrite HwX, HhX, Rect_ordered by lia.
    split; [done|]. split; [apply Dx_from_origin | apply Dy_from_origin]; lia.
  - intros ->. cbv zeta. rewrite HwY, HhY, Rect_ordered by lia.
    split; [done|]. split; [apply Dx_from_origin | apply Dy_from_origin]; lia.
  - by intros name ->.
Qed.

Lemma hexagonal_final_image_size_witness :
  Hexagonal.GetFinalImageSize (Hexagonal.Init (Fixture.hexmap tiled.AxisX)) (mkBounds 0 0 2 2)
    = image.Rectangle_ (image.Pt 0 0) (image.Pt 7 10)
  ∧ Hexagonal.GetFinalImageSize (Hexagonal.Init (Fixture.hexmap tiled.AxisY)) (mkBounds 0 0 2 2)
    = image.Rectangle_ (image.Pt 0 0) (image.Pt 10 7).
Proof.
  split.
  - apply (hexagonal_final_image_size (Fixture.hexmap tiled.AxisX) (mkBounds 0 0 2 2));
      first [ reflexivity | by vm_compute ].
  - apply (hexagonal_final_image_size (Fixture.hexmap tiled.AxisY) (mkBounds 0 0 2 2));
      first [ reflexivity | by vm_compute ].
Defined.

(** C5: RotateTileImage applies, in this order, the horizontal flip if the
    horizontal flag is set, the vertical flip if the vertical flag is set,
    and, if the diagonal flag is set, a quarter turn followed by a
    horizontal flip; with the three flags false the image comes back as it
    is, and with only the diagonal flag it is the source turned then
    mirrored. *)
Theorem RotateTileImage_fixed_order `{Externals}
    (e : Hexagonal.HexagonalRendererEngine) (tile : tiled.LayerTile.t) (img : Img) :
  Hexagonal.RotateTileImage e tile (Some img) =
    Ok (Some
      (let flipped := if tiled.LayerTile.HorizontalFlip tile then imaging_FlipH img else img in
       let flipped := if tiled.LayerTile.VerticalFlip tile then imaging_FlipV flipped
                      else flipped in
       if tiled.LayerTile.DiagonalFlip tile then imaging_FlipH (imaging_Rotate90 flipped)
       else flipped))
  ∧ (tiled.LayerTile.HorizontalFlip tile = false →
     tiled.LayerTile.VerticalFlip tile = false →
     tiled.LayerTile.DiagonalFlip tile = false →
     ∀ image : Image, Hexagonal.RotateTileImage e tile image = Ok image)
  ∧ (tiled.LayerTile.HorizontalFlip tile = false →
     tiled.LayerTile.VerticalFlip tile = false →
     tiled.LayerTile.DiagonalFlip tile = true →
     Hexagonal.RotateTileImage e tile (Some img)
       = Ok (Some (imaging_FlipH (imaging_Rotate90 img)))).
Proof.
  unfold Hexagonal.RotateTileImage.
  split; [|split].
  - destruct (tiled.LayerTile.HorizontalFlip tile), (tiled.LayerTile.VerticalFlip tile),
      (tiled.LayerTile.DiagonalFlip tile); reflexivity.
  - intros -> -> -> image. reflexivity.
  - intros -> -> ->. reflexivity.
Qed.

(** On grids: the diagonal flag alone turns then mirrors, and the order of
    the steps shows as soon as two flags are set. *)
Lemma RotateTileImage_fixed_order_witness :
  let e := Hexagonal.Init (Fixture.hexmap tiled.AxisX) in
  @Hexagonal.RotateTileImage Fixture.world e
      (tiled.LayerTile.mk 0 None false false true false) (Some [[1; 2]; [3; 4]])
    = Ok (Some [[4; 2]; [3; 1]])
  ∧ @Hexagonal.RotateTileImage Fixture.world e
      (tiled.LayerTile.mk 0 None true false true false) (Some [[1; 2]; [3; 4]])
    = Ok (Some [[3; 1]; [4; 2]]).
Proof.
  intros e. split.
  - apply (@RotateTileImage_fixed_order Fixture.world e
             (tiled.LayerTile.mk 0 None false false true false) [[1; 2]; [3; 4]]);
      reflexivity.
  - apply (@RotateTileImage_fixed_order Fixture.world e
             (tiled.LayerTile.mk 0 None true false true false) [[1; 2]; [3; 4]]).
Defined.

(** ** Running the renderer's methods *)

Section runs.
Context `{Externals}.
Implicit Types (r : Renderer.t) (layer : tiled.Layer.t).

Lemma bind_run {A B} (x : M A) (k : A → M B) r :
  (x ≫= k) r =
    match x r with
    | (Ok a, r') => k a r'
    | (Err e, r') => (Err e, r')
    | (Panic p, r') => (Panic p, r')
    end.
Proof. reflexivity. Qed.

Lemma index_negative {A} (s : list A) (i : Z) :
  i < 0 → index s i = Panic (IndexOutOfRange i (len s)).
Proof. intros Hi. unfold index. destruct (Z.ltb_spec i 0); [done | lia]. Qed.

Lemma index_in_range {A} (s : list A) (i : Z) (a : A) :
  0 <= i → s !! Z.to_nat i = Some a → index s i = Ok a.
Proof.
  intros Hi Ha. unfold index, len.
  pose proof (lookup_lt_Some _ _ _ Ha).
  destruct (Z.ltb_spec i 0); [lia|]. destruct (Z.leb_spec (Z.of_nat (length s)) i); [lia|].
  simpl. by rewrite Ha.
Qed.

(** A loop whose body does nothing does nothing. *)
Lemma for_loop_idle {A} (body : Z → A → M A) (n : nat) (i : Z) (a : A) r :
  (∀ j a' r', body j a' r' = (Ok a', r')) → for_loop n i body a r = (Ok a, r).
Proof.
  intros Hbody. revert i. induction n as [|n IH]; intros i; simpl; [done|].
  rewrite bind_run, Hbody. apply IH.
Qed.

(** A range that ends where it starts, or before, is not entered. *)
Lemma for_range_empty {A} (body : Z → A → M A) (lo hi : Z) (a : A) r :
  hi <= lo → for_range lo hi body a r = (Ok a, r).
Proof.
  intros Hle. unfold for_range. by replace (Z.to_nat (hi - lo)) with O by lia.
Qed.

(** The upper ends of the iteration never pass the map's edge. *)
Lemma clamped_end (edge stop : Z) : (if edge <? stop then edge else stop) <= edge.
Proof. destruct (Z.ltb_spec edge stop); lia. Qed.

(** A guard [if index >= len(s)] that the index passes, or that stops it. *)
Ltac guard_passes :=
  match goal with
  | |- context [?n <=? ?i] =>
      let Hge := fresh "Hge" in
      destruct (Z.leb_spec n i) as [Hge|_]; [unfold len in Hge; lia|]
  end.
Ltac guard_stops :=
  match goal with
  | |- context [?n <=? ?i] => destruct (Z.leb_spec n i); [done | lia]
  end.

(** X18: RenderLayer(index) with index >= the number of top-level layers,
    RenderGroupLayer with a group index >= the number of groups, and
    RenderGroupLayer on an existing group with a layer index >= the number
    of its layers, return the out-of-bounds error and leave the renderer,
    its output buffer included, as it was. *)
Theorem render_index_too_large_is_out_of_bounds r :
  (∀ id, len (tiled.Map.Layers (Renderer.m r)) <= id →
     RenderLayer id r = (Err ErrOutOfBounds, r))
  ∧ (∀ groupID layerID, len (tiled.Map.Groups (Renderer.m r)) <= groupID →
     RenderGroupLayer groupID layerID r = (Err ErrOutOfBounds, r))
  ∧ (∀ groupID layerID group,
       0 <= groupID →
       tiled.Map.Groups (Renderer.m r) !! Z.to_nat groupID = Some group →
       len (tiled.Group.Layers group) <= layerID →
       RenderGroupLayer groupID layerID r = (Err ErrOutOfBounds, r)).
Proof.
  split; [|split].
  - intros id Hid. unfold RenderLayer. rewrite bind_run; simpl.
    guard_stops.
  - intros groupID layerID Hg. unfold RenderGroupLayer. rewrite bind_run; simpl.
    guard_stops.
  - intros groupID layerID group Hpos Hgroup Hl.
    unfold RenderGroupLayer. rewrite bind_run; simpl.
    pose proof (lookup_lt_Some _ _ _ Hgroup) as Hlt.
    guard_passes.
    rewrite bind_run. unfold lift. rewrite (index_in_range _ _ _ Hpos Hgroup).
    guard_stops.
Qed.

(** A negative group index passes the guard of RenderGroupLayer, and the
    access to the groups panics. *)
Lemma RenderGroupLayer_negative_group r groupID layerID :
  groupID < 0 →
  RenderGroupLayer groupID layerID r
  = (Panic (IndexOutOfRange groupID (len (tiled.Map.Groups (Renderer.m r)))), r).
Proof.
  intros Hg. unfold RenderGroupLayer. rewrite bind_run; simpl.
  guard_passes.
  rewrite bind_run. unfold lift. by rewrite index_negative.
Qed.

(** So does a negative layer index on an existing group: the access to the
    group's layers panics. *)
Lemma RenderGroupLayer_negative_layer r groupID layerID group :
  0 <= groupID →
  tiled.Map.Groups (Renderer.m r) !! Z.to_nat groupID = Some group →
  layerID < 0 →
  RenderGroupLayer groupID layerID r
  = (Panic (IndexOutOfRange layerID (len (tiled.Group.Layers group))), r).
Proof.
  intros Hpos Hgroup Hl.
  unfold RenderGroupLayer. rewrite bind_run; simpl.
  pose proof (lookup_lt_Some _ _ _ Hgroup) as Hlt.
  guard_passes.
  rewrite bind_run. unfold lift. rewrite (index_in_range _ _ _ Hpos Hgroup).
  guard_passes.
  rewrite bind_run. by rewrite index_negative.
Qed.

(** C9: a negative layer index is not reported as an out-of-bounds error.
    RenderLayer and RenderGroupLayer guard only against indices >= the slice
    length, so a negative index passes the guard and the slice access panics
    with an index out of range. *)
Theorem negative_index_panics r :
  (∀ id, id < 0 →
     RenderLayer id r
       = (Panic (IndexOutOfRange id (len (tiled.Map.Layers (Renderer.m r)))), r))
  ∧ (∀ groupID layerID, groupID < 0 →
     RenderGroupLayer groupID layerID r
       = (Panic (IndexOutOfRange groupID (len (tiled.Map.Groups (Renderer.m r)))), r))
  ∧ (∀ groupID layerID group,
       0 <= groupID →
       tiled.Map.Groups (Renderer.m r) !! Z.to_nat groupID = Some group →
       layerID < 0 →
       RenderGroupLayer groupID layerID r
         = (Panic (IndexOutOfRange layerID (len (tiled.Group.Layers group))), r)).
Proof.
  split; [|split].
  - intros id Hid. unfold RenderLayer. rewrite bind_run; simpl.
    guard_passes.
    rewrite bind_run. unfold lift. by rewrite index_negative.
  - intros groupID layerID. apply RenderGroupLayer_negative_group.
  - intros groupID layerID group. apply RenderGroupLayer_negative_layer.
Qed.

(** With the viewport at or beyond the map's edge no cell is visited. *)
Lemma renderLayer_beyond_edge layer r :
  let m := Renderer.m r in
  let b := Renderer.ResultBounds r in
  (tiled.Map.Orientation m = "hexagonal" ∨ tiled.Map.Orientation m = "orthogonal") →
  tiled.Map.RenderOrder m = "right-down" →
  tiled.Map.Width m <= offsetX b ∨ tiled.Map.Height m <= offsetY b →
  _renderLayer layer r = (Ok tt, r).
Proof.
  intros m b Horient Horder Hedge.
  unfold _renderLayer. rewrite bind_run; simpl. fold m b.
  assert (String.eqb (tiled.Map.Orientation m) "hexagonal"
          || String.eqb (tiled.Map.Orientation m) "orthogonal" = true) as ->.
  { destruct Horient as [-> | ->]; reflexivity. }
  rewrite Horder; simpl.
  destruct Hedge as [Hx | Hy].
  - apply for_loop_idle. intros y [] r'.
    apply for_range_empty.
    pose proof (clamped_end (tiled.Map.Width m) (offsetX b +! limitX b)). lia.
  - apply for_range_empty.
    pose proof (clamped_end (tiled.Map.Height m) (offsetY b +! limitY b)). lia.
Qed.

(** C10: on a map of a supported orientation with render order right-down,
    when the viewport offset lies at or beyond the map's edge (offsetX >=
    width or offsetY >= height), RenderLayer of any existing layer succeeds
    with no error and leaves the renderer, its output buffer and tile cache
    included, unchanged: the clamped range is empty and no tile is resolved
    or drawn. *)
Theorem RenderLayer_beyond_edge_is_idle r (id : Z) layer :
  let m := Renderer.m r in
  let b := Renderer.ResultBounds r in
  (tiled.Map.Orientation m = "hexagonal" ∨ tiled.Map.Orientation m = "orthogonal") →
  tiled.Map.RenderOrder m = "right-down" →
  0 <= id → tiled.Map.Layers m !! Z.to_nat id = Some layer →
  tiled.Map.Width m <= offsetX b ∨ tiled.Map.Height m <= offsetY b →
  RenderLayer id r = (Ok tt, r).
Proof.
  intros m b Horient Horder Hid Hlayer Hedge.
  unfold RenderLayer. rewrite bind_run; simpl. fold m.
  pose proof (lookup_lt_Some _ _ _ Hlayer) as Hlt.
  guard_passes.
  rewrite bind_run. unfold lift. rewrite (index_in_range _ _ _ Hid Hlayer).
  by apply renderLayer_beyond_edge.
Qed.

End runs.

(** C6: on the two by two map, whose one group holds one layer, the group
    index -1 and the layer index -1 are out of range, yet
    RenderGroupLayer(-1, 0) and RenderGroupLayer(0, -1) do not return the
    out-of-bounds error: both panic with an index out of range at the slice
    access.  The renderer is left as it was. *)
Theorem RenderGroupLayer_negative_index_is_not_reported :
  let r := Fixture.renderer tiled.AxisX (0, 0) in
  RenderGroupLayer (-1) 0 r = (Panic (IndexOutOfRange (-1) 1), r)
  ∧ RenderGroupLayer 0 (-1) r = (Panic (IndexOutOfRange (-1) 1), r)
  ∧ fst (RenderGroupLayer (-1) 0 r) ≠ Err ErrOutOfBounds
  ∧ fst (RenderGroupLayer 0 (-1) r) ≠ Err ErrOutOfBounds.
Proof.
  intros r.
  assert (Hgroup : RenderGroupLayer (-1) 0 r = (Panic (IndexOutOfRange (-1) 1), r)).
  { apply (@RenderGroupLayer_negative_group Fixture.world r (-1) 0). lia. }
  assert (Hlayer : RenderGroupLayer 0 (-1) r = (Panic (IndexOutOfRange (-1) 1), r)).
  { apply (@RenderGroupLayer_negative_layer Fixture.world r 0 (-1)
             (tiled.Group.mk [Fixture.layer0])); [lia | reflexivity | lia]. }
  split; [exact Hgroup|]. split; [exact Hlayer|].
  rewrite Hgroup, Hlayer. cbn [fst].
  split; intro Hc; discriminate Hc.
Qed.

Lemma render_index_too_large_is_out_of_bounds_witness :
  let r := Fixture.renderer tiled.AxisX (0, 0) in
  RenderLayer 1 r = (Err ErrOutOfBounds, r)
  ∧ RenderGroupLayer 1 0 r = (Err ErrOutOfBounds, r)
  ∧ RenderGroupLayer 0 1 r = (Err ErrOutOfBounds, r).
Proof.
  intros r.
  pose proof (@render_index_too_large_is_out_of_bounds Fixture.world r) as (HL & HG & HGL).
  split; [|split].
  - apply HL. by vm_compute.
  - apply HG. by vm_compute.
  - apply (HGL 0 1 (tiled.Group.mk [Fixture.layer0])); [lia | reflexivity | by vm_compute].
Defined.

Lemma negative_index_panics_witness :
  let r := Fixture.renderer tiled.AxisX (0, 0) in
  RenderLayer (-1) r = (Panic (IndexOutOfRange (-1) 1), r)
  ∧ RenderGroupLayer (-1) 0 r = (Panic (IndexOutOfRange (-1) 1), r)
  ∧ RenderGroupLayer 0 (-1) r = (Panic (IndexOutOfRange (-1) 1), r).
Proof.
  intros r.
  pose proof (@negative_index_panics Fixture.world r) as (HL & HG & HGL).
  split; [|split].
  - apply (HL (-1)). lia.
  - apply (HG (-1) 0). lia.
  - apply (HGL 0 (-1) (tiled.Group.mk [Fixture.layer0])); [lia | reflexivity | lia].
Defined.

Lemma RenderLayer_beyond_edge_is_idle_witness :
  let r := Fixture.renderer tiled.AxisX (2, 0) in
  RenderLayer 0 r = (Ok tt, r).
Proof.
  intros r.
  apply (@RenderLayer_beyond_edge_is_idle Fixture.world r 0 Fixture.layer0).
  - left. reflexivity.
  - reflexivity.
  - lia.
  - reflexivity.
  - left. by vm_compute.
Defined.

(** ** The output buffer and the tile cache *)

(** A buffer the runtime accepts and can provide is allocated, zeroed. *)
Lemma NewNRGBA_allocates `{Runtime} (size : image.Rectangle) :
  0 <= image.Dx size < 2 ^ 48 → 0 <= image.Dy size < 2 ^ 48 →
  4 * image.Dx size * image.Dy size <= maxAlloc →
  can_allocate (4 * image.Dx size * image.Dy size) = true →
  image.NewNRGBA size
  = Ok (image.NRGBA.mk (replicate (Z.to_nat (4 * image.Dx size * image.Dy size)) 0)
          (4 *! image.Dx size) size).
Proof.
  unfold maxAlloc. intros Hdx Hdy Hmax Hcan. unfold image.NewNRGBA, image.mul3NonNeg.
  assert (0 <= 4 * image.Dx size * image.Dy size) by nia.
  destruct (Z.ltb_spec (image.Dx size) 0); [lia|].
  destruct (Z.ltb_spec (image.Dy size) 0); [lia|]. simpl.
  destruct (Z.leb_spec (2 ^ 64) (4 * image.Dx size)); [lia|].
  destruct (Z.leb_spec (2 ^ 64) (4 * image.Dx size * image.Dy size)); [lia|].
  destruct (Z.leb_spec (2 ^ 63) (4 * image.Dx size * image.Dy size)); [lia|].
  destruct (Z.ltb_spec (4 * image.Dx size * image.Dy size) 0); [lia|].
  destruct (Z.ltb_spec maxAlloc (4 * image.Dx size * image.Dy size));
    [unfold maxAlloc in *; lia|].
  by rewrite Hcan.
Qed.


Section cache.
Context `{Externals}.
Implicit Types (r : Renderer.t) (tile : tiled.LayerTile.t) (ts : tiled.Tileset.t).

Lemma set_tileCache_same r : set_tileCache (Renderer.tileCache r) r = r.
Proof. by destruct r. Qed.

Lemma open_run (f : string) r :
  open f r = match opened r f with
             | inl e => (Err e, r)
             | inr sf => (Ok sf, r)
             end.
Proof.
  unfold open, opened. rewrite bind_run; simpl.
  destruct (Renderer.fs r) as [fs|]; simpl.
  - by destruct (fs f).
  - by destruct (os_Open f).
Qed.

Lemma uint32_small (z : Z) : 0 <= z < 2 ^ 32 → uint32 z = z.
Proof. intros Hz. unfold uint32. by rewrite Z.mod_small. Qed.

(** Distinct local ids of one tileset have distinct keys. *)
Lemma cacheKey_inj ts (i j : Z) :
  0 <= i < 2 ^ 32 → 0 <= j < 2 ^ 32 → cacheKey ts i = cacheKey ts j → i = j.
Proof.
  unfold cacheKey, uint32_add, uint32. intros Hi Hj Heq.
  Z.to_euclidean_division_equations. lia.
Qed.

Lemma cacheKey_comm ts (i : Z) : uint32_add i (tiled.Tileset.FirstGID ts) = cacheKey ts i.
Proof. unfold cacheKey, uint32_add. f_equal. lia. Qed.

Lemma cropTile_run tile ts (img : Img) (i : Z) (timg : Image) r :
  cropTile tile ts img i timg r =
    (Ok (if tiled.LayerTile.ID tile =? i then Some (imaging_Crop img (GetTileRect ts i))
         else timg),
     set_tileCache (<[cacheKey ts i := imaging_Crop img (GetTileRect ts i)]>
                      (Renderer.tileCache r)) r).
Proof.
  unfold cropTile. rewrite cacheKey_comm.
  repeat (rewrite bind_run; simpl). unfold mret, M_ret. by rewrite lookup_insert_eq.
Qed.

(** The loop over the cells [i, i+n) of an atlas caches each of them and
    leaves every other key alone. *)
Lemma crop_loop tile ts (img : Img) (n : nat) :
  ∀ (i : Z) (timg : Image) r,
    0 <= i → i + Z.of_nat n <= 2 ^ 32 →
    ∃ (cache : gmap Z Img) (timg' : Image),
      for_loop n i (cropTile tile ts img) timg r = (Ok timg', set_tileCache cache r)
      ∧ (∀ j, i <= j < i + Z.of_nat n →
           cache !! cacheKey ts j = Some (imaging_Crop img (GetTileRect ts j)))
      ∧ (∀ k, (∀ j, i <= j < i + Z.of_nat n → k ≠ cacheKey ts j) →
           cache !! k = Renderer.tileCache r !! k).
Proof.
  induction n as [|n IH]; intros i timg r Hi Hn.
  - exists (Renderer.tileCache r), timg. rewrite set_tileCache_same.
    split; [done|]. split; [intros j Hj; lia | done].
  - cbn [for_loop]. rewrite bind_run, cropTile_run.
    set (c1 := <[cacheKey ts i := _]> _).
    destruct (IH (i + 1) (if tiled.LayerTile.ID tile =? i
                          then Some (imaging_Crop img (GetTileRect ts i)) else timg)
                 (set_tileCache c1 r) ltac:(lia) ltac:(lia))
      as (cache & timg' & Hrun & Hin & Hout).
    exists cache, timg'. split; [exact Hrun|]. split.
    + intros j Hj. destruct (Z.eq_dec j i) as [->|Hne].
      * rewrite Hout.
        -- subst c1; simpl. apply lookup_insert_eq.
        -- intros j' Hj' Heq. apply cacheKey_inj in Heq; lia.
      * apply Hin. lia.
    + intros k Hk. rewrite Hout.
      * subst c1; simpl. apply lookup_insert_ne. intros Heq. by apply (Hk i); [lia|].
      * intros j Hj. apply Hk. lia.
Qed.

(** Entries of another id are passed over. *)
Lemma loadTileImages_skip tile ts (tiles : list tiled.TilesetTile.t) (timg : Image) r :
  Forall (λ t, tiled.TilesetTile.ID t ≠ tiled.LayerTile.ID tile) tiles →
  loadTileImages tile ts tiles timg r = (Ok timg, r).
Proof.
  induction 1 as [|t rest Hne _ IH]; [done|].
  cbn [loadTileImages]. rewrite bind_run.
  destruct (Z.eqb_spec (tiled.TilesetTile.ID t) (tiled.LayerTile.ID tile)); [done|].
  exact IH.
Qed.

Lemma loadTileImages_skip_app tile ts (before rest : list tiled.TilesetTile.t)
    (timg : Image) r :
  Forall (λ t, tiled.TilesetTile.ID t ≠ tiled.LayerTile.ID tile) before →
  loadTileImages tile ts (before ++ rest) timg r = loadTileImages tile ts rest timg r.
Proof.
  induction 1 as [|t before' Hne _ IH]; [done|].
  cbn [app loadTileImages]. rewrite bind_run.
  destruct (Z.eqb_spec (tiled.TilesetTile.ID t) (tiled.LayerTile.ID tile)); [done|].
  exact IH.
Qed.

(** An entry of the requested id whose file opens and decodes is cached
    under the requested tile's key. *)
Lemma loadTileImages_hit tile ts (t : tiled.TilesetTile.t)
    (rest : list tiled.TilesetTile.t) (image : tiled.Image.t) (img : Img) (timg : Image) r :
  tiled.TilesetTile.ID t = tiled.LayerTile.ID tile →
  tiled.TilesetTile.Image t = Some image →
  loads r ts (tiled.Image.Source image) = inr img →
  loadTileImages tile ts (t :: rest) timg r =
    loadTileImages tile ts rest (Some img)
      (set_tileCache (<[cacheKey ts (tiled.LayerTile.ID tile) := img]> (Renderer.tileCache r)) r).
Proof.
  intros Hid Himage Hloads. unfold loads in Hloads.
  cbn [loadTileImages]. rewrite bind_run, Hid, Z.eqb_refl, Himage.
  rewrite bind_run; simpl. rewrite bind_run, open_run.
  destruct (opened r _) as [e|sf]; [done|].
  rewrite bind_run, Hloads. reflexivity.
Qed.

(** The loop over single images writes no key but the requested tile's. *)
Lemma loadTileImages_frame tile ts (tiles : list tiled.TilesetTile.t) :
  ∀ (timg : Image) r,
    ∃ cache : gmap Z Img,
      snd (loadTileImages tile ts tiles timg r) = set_tileCache cache r
      ∧ ∀ k, k ≠ cacheKey ts (tiled.LayerTile.ID tile) →
             cache !! k = Renderer.tileCache r !! k.
Proof.
  induction tiles as [|t rest IH]; intros timg r.
  - exists (Renderer.tileCache r). by rewrite set_tileCache_same.
  - destruct (Z.eq_dec (tiled.TilesetTile.ID t) (tiled.LayerTile.ID tile)) as [Hid|Hne].
    + destruct (tiled.TilesetTile.Image t) as [image|] eqn:Himage.
      * destruct (loads r ts (tiled.Image.Source image)) as [e|img] eqn:Hloads.
        -- exists (Renderer.tileCache r). rewrite set_tileCache_same. split; [|done].
           unfold loads in Hloads.
           cbn [loadTileImages]. rewrite bind_run, Hid, Z.eqb_refl, Himage.
           rewrite bind_run; simpl. rewrite bind_run, open_run.
           destruct (opened r _) as [e'|sf]; [done|].
           rewrite bind_run, Hloads. reflexivity.
        -- rewrite (loadTileImages_hit _ _ _ _ _ _ _ _ Hid Himage Hloads).
           destruct (IH (Some img) (set_tileCache
                      (<[cacheKey ts (tiled.LayerTile.ID tile) := img]>
                         (Renderer.tileCache r)) r)) as (cache & Hsnd & Hframe).
           exists cache. split; [exact Hsnd|].
           intros k Hk. rewrite (Hframe k Hk); simpl. by apply lookup_insert_ne.
      * exists (Renderer.tileCache r). rewrite set_tileCache_same. split; [|done].
        cbn [loadTileImages]. rewrite bind_run, Hid, Z.eqb_refl, Himage. reflexivity.
    + change (t :: rest) with ([t] ++ rest).
      rewrite (loadTileImages_skip_app tile ts [t] rest timg r); [apply IH|].
      by constructor.
Qed.

End cache.

Section tile_cache.
Context `{Externals}.
Implicit Types (r : Renderer.t) (tile : tiled.LayerTile.t) (ts : tiled.Tileset.t).

(** C1, as the code has it: on a cache miss, when the files open and decode,
    getTileImage caches, for an atlas tileset, the crop of every index in
    [0, tileCount) under firstGID + index and touches no other key; for a
    tileset of single images it opens, decodes and caches only the entry of
    the requested tile, under firstGID + the requested id, and writes no
    other key, so that the other tiles of the tileset are not cached. *)
Theorem getTileImage_fills_cache r tile ts :
  tiled.LayerTile.Tileset tile = Some ts →
  Renderer.tileCache r !! cacheKey ts (tiled.LayerTile.ID tile) = None →
  (∀ image img,
     tiled.Tileset.Image ts = Some image →
     loads r ts (tiled.Image.Source image) = inr img →
     0 <= tiled.Tileset.TileCount ts < 2 ^ 32 →
     ∃ (cache : gmap Z Img) (timg : Image),
       getTileImage tile r
         = (RotateTileImage (Renderer.engine r) tile timg, set_tileCache cache r)
       ∧ (∀ i, 0 <= i < tiled.Tileset.TileCount ts →
            cache !! cacheKey ts i = Some (imaging_Crop img (GetTileRect ts i)))
       ∧ (∀ k, (∀ i, 0 <= i < tiled.Tileset.TileCount ts → k ≠ cacheKey ts i) →
            cache !! k = Renderer.tileCache r !! k))
  ∧ (tiled.Tileset.Image ts = None →
     ∃ cache : gmap Z Img,
       snd (getTileImage tile r) = set_tileCache cache r
       ∧ ∀ k, k ≠ cacheKey ts (tiled.LayerTile.ID tile) →
              cache !! k = Renderer.tileCache r !! k)
  ∧ (∀ before t after image img,
     tiled.Tileset.Image ts = None →
     tiled.Tileset.Tiles ts = before ++ t :: after →
     tiled.TilesetTile.ID t = tiled.LayerTile.ID tile →
     Forall (λ t', tiled.TilesetTile.ID t' ≠ tiled.LayerTile.ID tile) (before ++ after) →
     tiled.TilesetTile.Image t = Some image →
     loads r ts (tiled.Image.Source image) = inr img →
     getTileImage tile r
       = (RotateTileImage (Renderer.engine r) tile (Some img),
          set_tileCache (<[cacheKey ts (tiled.LayerTile.ID tile) := img]>
                           (Renderer.tileCache r)) r)).
Proof.
  intros Hts Hmiss.
  assert (Hstart : getTileImage tile r =
            ((match tiled.Tileset.Image ts with
              | None => loadTileImages tile ts (tiled.Tileset.Tiles ts) None
              | Some image =>
                  sf ← open (GetFileFullPath ts (tiled.Image.Source image));
                  img ← of_error (image_Decode sf);
                  for_range 0 (uint32 (tiled.Tileset.TileCount ts)) (cropTile tile ts img) None
              end) ≫= λ timg, r ← get; lift (RotateTileImage (Renderer.engine r) tile timg)) r).
  { unfold getTileImage. rewrite bind_run, Hts; simpl.
    rewrite bind_run; simpl. by rewrite Hmiss. }
  rewrite Hstart. clear Hstart.
  split; [|split].
  - intros image img Himage Hloads Hcount. rewrite Himage.
    unfold loads in Hloads.
    rewrite !bind_run, open_run.
    destruct (opened r _) as [e|sf]; [done|].
    rewrite Hloads; simpl.
    unfold for_range. rewrite uint32_small, Z.sub_0_r by done.
    destruct (crop_loop tile ts img (Z.to_nat (tiled.Tileset.TileCount ts)) 0 None r)
      as (cache & timg & Hrun & Hin & Hout); [lia | lia |].
    rewrite bind_run; simpl. rewrite Hrun; simpl.
    exists cache, timg. split; [done|]. split.
    + intros i Hi. apply Hin. lia.
    + intros k Hk. apply Hout. intros j Hj. apply Hk. lia.
  - intros Himage. rewrite Himage, bind_run.
    destruct (loadTileImages_frame tile ts (tiled.Tileset.Tiles ts) None r)
      as (cache & Hsnd & Hframe).
    exists cache. split; [|exact Hframe].
    destruct (loadTileImages _ _ _ _ r) as [[timg|e|p] r']; simpl in *; by subst r'.
  - intros before t after image img Himage Htiles Hid Hothers Ht Hloads.
    apply Forall_app in Hothers as [Hbefore Hafter].
    rewrite Himage, bind_run, Htiles.
    rewrite (loadTileImages_skip_app _ _ _ _ _ _ Hbefore).
    rewrite (loadTileImages_hit _ _ _ _ _ _ _ _ Hid Ht Hloads).
    by rewrite (loadTileImages_skip _ _ _ _ _ Hafter).
Qed.


End tile_cache.

(** ** Runs in the small world *)

Lemma new_renderer_succeeds :
  Fixture.new_renderer_ok tiled.AxisX = true ∧ Fixture.new_renderer_ok tiled.AxisY = true.
Proof. split; vm_compute; reflexivity. Qed.

Lemma getTileImage_fills_cache_witness :
  let r := Fixture.renderer tiled.AxisX (0, 0) in
  ∃ (cache : gmap Z (@Img Fixture.world)) (timg : @Image Fixture.world),
    getTileImage (Fixture.tile_of Fixture.atlas 0) r
      = (RotateTileImage (Renderer.engine r) (Fixture.tile_of Fixture.atlas 0) timg,
         set_tileCache cache r)
    ∧ cache !! 1 = Some [[1; 2]; [5; 6]]
    ∧ cache !! 2 = Some [[3; 4]; [7; 8]].
Proof.
  intros r.
  destruct (@getTileImage_fills_cache Fixture.world r
              (Fixture.tile_of Fixture.atlas 0) Fixture.atlas) as (Hatlas & _ & _).
  - reflexivity.
  - vm_compute. reflexivity.
  - destruct (Hatlas (tiled.Image.mk "atlas.png") Fixture.atlas_png)
      as (cache & timg & Hrun & Hin & _).
    + reflexivity.
    + vm_compute. reflexivity.
    + vm_compute. split; first [discriminate | reflexivity].
    + exists cache, timg. split; [exact Hrun|].
      assert (Hkey0 : cacheKey Fixture.atlas 0 = 1) by (vm_compute; reflexivity).
      assert (Hkey1 : cacheKey Fixture.atlas 1 = 2) by (vm_compute; reflexivity).
      assert (Hcrop0 : @imaging_Crop Fixture.world Fixture.atlas_png
                         (@GetTileRect Fixture.world Fixture.atlas 0) = [[1; 2]; [5; 6]])
        by (vm_compute; reflexivity).
      assert (Hcrop1 : @imaging_Crop Fixture.world Fixture.atlas_png
                         (@GetTileRect Fixture.world Fixture.atlas 1) = [[3; 4]; [7; 8]])
        by (vm_compute; reflexivity).
      assert (H0 := Hin 0). assert (H1 := Hin 1).
      rewrite Hkey0, Hcrop0 in H0. rewrite Hkey1, Hcrop1 in H1.
      change (tiled.Tileset.TileCount Fixture.atlas) with 2 in H0, H1.
      split; [apply H0 | apply H1]; lia.
Defined.

(** C1, counterexample: the tileset [singles] stores an image per tile and
    has tiles 0 and 1; resolving tile 0 on an empty cache succeeds and
    caches tile 0 under key 1, and tile 1 is still not cached under key 2. *)
Lemma getTileImage_single_images_not_all_cached :
  let r := Fixture.renderer tiled.AxisX (0, 0) in
  let run := getTileImage (Fixture.tile_of Fixture.singles 0) r in
  Renderer.tileCache r !! cacheKey Fixture.singles 0 = None
  ∧ fst run = Ok (Some Fixture.a_png)
  ∧ Renderer.tileCache (snd run) !! cacheKey Fixture.singles 0 = Some Fixture.a_png
  ∧ Renderer.tileCache (snd run) !! cacheKey Fixture.singles 1 = None.
Proof. vm_compute. repeat split. Qed.



(** ** Stagger parity under a moved viewport *)

(** With the parity taken from the viewport's y offset, as _renderLayer
    does, the row parity test of stagger axis Y answers for the map's row:
    the viewport-relative row Y - offsetY tests odd exactly when the same
    row does in a viewport at offset 0. *)
Lemma row_parity_anchored (offsetY Y : Z) :
  0 <= offsetY <= Y → is_int Y →
  (((Y -! offsetY) %! 2) =? (if (offsetY %! 2) =? 1 then 0 else 1))
  = (((Y -! 0) %! 2) =? (if (0 %! 2) =? 1 then 0 else 1)).
Proof.
  unfold is_int. intros Hoff HY.
  rewrite !int_sub_small by (unfold is_int; lia).
  unfold int_rem. change (Z.rem 0 2 =? 1) with false. cbv iota.
  rewrite Z.sub_0_r.
  destruct (Z.eqb_spec (Z.rem offsetY 2) 1) as [Hodd|Heven];
    destruct (Z.eqb_spec (Z.rem (Y - offsetY) 2) 0), (Z.eqb_spec (Z.rem (Y - offsetY) 2) 1),
             (Z.eqb_spec (Z.rem Y 2) 1);
    try reflexivity; exfalso; Z.to_euclidean_division_equations; lia.
Qed.

(** The column parity test of stagger axis X is handed the same flag, taken
    from the y offset: it answers for the map's column exactly when the
    viewport's two offsets have the same parity. *)
Lemma column_parity_anchored_iff (offsetX offsetY X : Z) :
  0 <= offsetX <= X → 0 <= offsetY → is_int X →
  (((X -! offsetX) %! 2) =? (if (offsetY %! 2) =? 1 then 0 else 1))
  = (((X -! 0) %! 2) =? (if (0 %! 2) =? 1 then 0 else 1))
  ↔ Z.rem offsetX 2 = Z.rem offsetY 2.
Proof.
  unfold is_int. intros HoffX HoffY HX.
  rewrite !int_sub_small by (unfold is_int; lia).
  unfold int_rem. change (Z.rem 0 2 =? 1) with false. cbv iota.
  rewrite Z.sub_0_r.
  destruct (Z.eqb_spec (Z.rem offsetY 2) 1) as [Hodd|Heven];
    destruct (Z.eqb_spec (Z.rem (X - offsetX) 2) 0), (Z.eqb_spec (Z.rem (X - offsetX) 2) 1),
             (Z.eqb_spec (Z.rem X 2) 1);
    split; intros Heq;
    first [ reflexivity | discriminate
          | Z.to_euclidean_division_equations; lia
          | exfalso; Z.to_euclidean_division_equations; lia ].
Qed.

(** The horizontal extent of [image.Rect] does not depend on the vertical
    corners. *)
Lemma Rect_X_independent (x0 x1 y0 y1 y0' y1' : Z) :
  image.X (image.Min (image.Rect x0 y0 x1 y1)) = image.X (image.Min (image.Rect x0 y0' x1 y1'))
  ∧ image.X (image.Max (image.Rect x0 y0 x1 y1)) = image.X (image.Max (image.Rect x0 y0' x1 y1')).
Proof.
  unfold image.Rect.
  destruct (x1 <? x0), (y1 <? y0), (y1' <? y0'); split; reflexivity.
Qed.

(** Stagger axis Y: the cell of map row Y is given the same horizontal
    bump whether the viewport starts at row offsetY or at row 0. *)
Lemma hexagonal_row_bump_anchored (m : tiled.Map.t) (x offsetY Y : Z) :
  let e := Hexagonal.Init m in
  tiled.Map.StaggerAxis m = tiled.AxisY →
  0 <= offsetY <= Y → is_int Y →
  image.X (image.Min (Hexagonal.GetTilePosition e x (Y -! offsetY) ((offsetY %! 2) =? 1)))
  = image.X (image.Min (Hexagonal.GetTilePosition e x (Y -! 0) ((0 %! 2) =? 1)))
  ∧ image.X (image.Max (Hexagonal.GetTilePosition e x (Y -! offsetY) ((offsetY %! 2) =? 1)))
    = image.X (image.Max (Hexagonal.GetTilePosition e x (Y -! 0) ((0 %! 2) =? 1))).
Proof.
  intros e Haxis Hoff HY. subst e.
  unfold Hexagonal.GetTilePosition, Hexagonal.Init. cbn [Hexagonal.m].
  rewrite Haxis. cbv zeta.
  rewrite (row_parity_anchored offsetY Y Hoff HY).
  apply Rect_X_independent.
Qed.

(** C2, the code at the failing input: a hexagonal map with stagger axis X
    whose column 1 holds tiles.  A viewport at offset (0,0) draws the cells
    of column 1 half a tile lower (top edges y = 2 and y = 6 for rows 0 and
    1, tiles being 4 pixels high); a viewport at offset (1,0) draws the same
    cells with no bump (top edges y = 0 and y = 4): the parity follows the
    viewport-relative column.  With stagger axis Y and a viewport at offset
    (0,1) the cell of row 1 keeps its bump (left edge x = 6 in both). *)
Theorem stagger_X_parity_follows_viewport :
  Fixture.recorded (snd (RenderLayer 0 (Fixture.renderer tiled.AxisX (0, 0))))
    = [3; 2; 7; 10;  3; 6; 7; 14]
  ∧ Fixture.recorded (snd (RenderLayer 0 (Fixture.renderer tiled.AxisX (1, 0))))
    = [0; 0; 4; 8;  0; 4; 4; 12]
  ∧ Fixture.recorded (snd (RenderLayer 0 (Fixture.renderer tiled.AxisY (0, 0))))
    = [4; 0; 12; 7;  6; 3; 14; 10]
  ∧ Fixture.recorded (snd (RenderLayer 0 (Fixture.renderer tiled.AxisY (0, 1))))
    = [6; 0; 14; 7].
Proof. vm_compute. repeat split. Qed.

(** ** What rendering never changes *)

Section frame.
Context `{Externals}.
Implicit Types (r : Renderer.t) (layer : tiled.Layer.t) (tile : tiled.LayerTile.t).

Lemma preserved_refl r : preserved r r.
Proof. by repeat split. Qed.

Lemma preserved_trans r1 r2 r3 : preserved r1 r2 → preserved r2 r3 → preserved r1 r3.
Proof.
  intros (Hm & Hb & He & Hf & Hc) (Hm' & Hb' & He' & Hf' & Hc').
  repeat split; try congruence. intros k Hk. by apply Hc', Hc.
Qed.

Lemma preserved_set_Result (buf : image.NRGBA.t) r : preserved r (set_Result buf r).
Proof. by repeat split. Qed.

Lemma preserved_insert (k : Z) (img : Img) r :
  preserved r (set_tileCache (<[k := img]> (Renderer.tileCache r)) r).
Proof.
  repeat split; simpl. intros k' Hk'.
  destruct (decide (k = k')) as [->|Hne].
  - rewrite lookup_insert_eq. by eexists.
  - by rewrite lookup_insert_ne.
Qed.

Lemma keeps_ret {A} (a : A) : keeps (mret a).
Proof. intros r. apply preserved_refl. Qed.

Lemma keeps_lift {A} (x : result A) : keeps (lift x).
Proof. intros r. apply preserved_refl. Qed.

Lemma keeps_fail {A} (e : error) : keeps (@fail _ A e).
Proof. intros r. apply preserved_refl. Qed.

Lemma keeps_of_error {A} (x : error + A) : keeps (of_error x).
Proof. destruct x; [apply keeps_fail | apply keeps_ret]. Qed.

Lemma keeps_deref {A} (p : option A) : keeps (deref p).
Proof. destruct p; [apply keeps_ret | apply keeps_lift]. Qed.

(** The rule of sequence: a method followed by a method. *)
Lemma keeps_bind {A B} (x : M A) (k : A → M B) :
  keeps x → (∀ a, keeps (k a)) → keeps (x ≫= k).
Proof.
  intros Hx Hk r. rewrite bind_run. specialize (Hx r).
  destruct (x r) as [[a|e|p] r']; simpl in *; [|done..].
  eapply preserved_trans; [exact Hx | apply Hk].
Qed.

(** Reading the renderer and going on with what was read. *)
Lemma keeps_get {B} (k : Renderer.t → M B) :
  (∀ r, preserved r (snd (k r r))) → keeps (get ≫= k).
Proof. intros Hk r. rewrite bind_run. apply Hk. Qed.

Lemma keeps_for_loop {A} (body : Z → A → M A) (n : nat) :
  (∀ i a, keeps (body i a)) → ∀ i a, keeps (for_loop n i body a).
Proof.
  intros Hbody. induction n as [|n IH]; intros i a; cbn [for_loop].
  - apply keeps_ret.
  - apply keeps_bind; [apply Hbody | intros a'; apply IH].
Qed.

Lemma keeps_for_range {A} (body : Z → A → M A) (lo hi : Z) (a : A) :
  (∀ i a, keeps (body i a)) → keeps (for_range lo hi body a).
Proof. intros Hbody. by apply keeps_for_loop. Qed.

Lemma keeps_open (f : string) : keeps (open f).
Proof.
  intros r. rewrite open_run. destruct (opened r f); apply preserved_refl.
Qed.

Lemma keeps_loadTileImages tile (ts : tiled.Tileset.t) (tiles : list tiled.TilesetTile.t) :
  ∀ timg : Image, keeps (loadTileImages tile ts tiles timg).
Proof.
  induction tiles as [|t rest IH]; intros timg; cbn [loadTileImages].
  - apply keeps_ret.
  - apply keeps_bind; [|exact IH].
    destruct (tiled.TilesetTile.ID t =? tiled.LayerTile.ID tile); [|apply keeps_ret].
    apply keeps_bind; [apply keeps_deref|]. intros image.
    apply keeps_bind; [apply keeps_open|]. intros sf.
    apply keeps_bind; [apply keeps_of_error|]. intros img.
    apply keeps_get. intros r. rewrite bind_run; simpl. apply preserved_insert.
Qed.

Lemma keeps_cropTile tile (ts : tiled.Tileset.t) (img : Img) (i : Z) (timg : Image) :
  keeps (cropTile tile ts img i timg).
Proof.
  intros r. rewrite cropTile_run; simpl. apply preserved_insert.
Qed.

Lemma keeps_getTileImage tile : keeps (getTileImage tile).
Proof.
  unfold getTileImage.
  apply keeps_bind; [apply keeps_deref|]. intros ts.
  apply keeps_get. intros r.
  destruct (Renderer.tileCache r !! _) as [timg|]; [apply keeps_lift|].
  apply keeps_bind.
  - destruct (tiled.Tileset.Image ts) as [image|]; [|apply keeps_loadTileImages].
    apply keeps_bind; [apply keeps_open|]. intros sf.
    apply keeps_bind; [apply keeps_of_error|]. intros img.
    apply keeps_for_range. intros i a. apply keeps_cropTile.
  - intros timg. apply keeps_get. intros r'. apply keeps_lift.
Qed.

Lemma keeps_renderTile layer (i x y : Z) (startOdd : bool) :
  keeps (_renderTile layer i x y startOdd).
Proof.
  unfold _renderTile.
  apply keeps_bind; [apply keeps_lift|]. intros tile.
  destruct (tiled.LayerTile.IsNil tile); [apply keeps_ret|].
  apply keeps_bind; [apply keeps_getTileImage|]. intros img.
  apply keeps_get. intros r.
  destruct (tiled.lt_one _); destruct img as [img|]; simpl; try apply preserved_refl;
    apply preserved_set_Result.
Qed.

Lemma keeps_renderLayer layer : keeps (_renderLayer layer).
Proof.
  unfold _renderLayer. apply keeps_get. intros r.
  destruct (_ && _); [|apply keeps_fail].
  apply keeps_for_range. intros y [].
  apply keeps_for_range. intros x []. apply keeps_renderTile.
Qed.

Lemma keeps_RenderLayer (id : Z) : keeps (RenderLayer id).
Proof.
  unfold RenderLayer. apply keeps_get. intros r.
  destruct (_ <=? _); [apply keeps_fail|].
  apply keeps_bind; [apply keeps_lift | intros layer; apply keeps_renderLayer].
Qed.

Lemma keeps_RenderGroupLayer (groupID layerID : Z) : keeps (RenderGroupLayer groupID layerID).
Proof.
  unfold RenderGroupLayer. apply keeps_get. intros r.
  destruct (_ <=? _); [apply keeps_fail|].
  apply keeps_bind; [apply keeps_lift|]. intros group.
  destruct (_ <=? _); [apply keeps_fail|].
  apply keeps_bind; [apply keeps_lift | intros layer; apply keeps_renderLayer].
Qed.

Lemma keeps_RenderVisibleLayers : keeps RenderVisibleLayers.
Proof.
  unfold RenderVisibleLayers. apply keeps_get. intros r.
  apply keeps_for_range. intros i [].
  apply keeps_bind; [apply keeps_lift|]. intros layer.
  destruct (negb _); [apply keeps_ret | apply keeps_RenderLayer].
Qed.

Lemma keeps_Clear : keeps Clear.
Proof.
  unfold Clear. apply keeps_get. intros r.
  rewrite bind_run. unfold lift.
  destruct (image.NewNRGBA _); simpl; try apply preserved_refl. apply preserved_set_Result.
Qed.

(** X1: whatever they return and however they stop (success, error or
    panic), RenderLayer, RenderGroupLayer, RenderVisibleLayers and Clear
    leave the renderer's map, viewport bounds, engine and file system as
    they were, and no key of the tile cache is ever removed. *)
Theorem rendering_keeps_the_renderer r :
  (∀ id, preserved r (snd (RenderLayer id r)))
  ∧ (∀ groupID layerID, preserved r (snd (RenderGroupLayer groupID layerID r)))
  ∧ preserved r (snd (RenderVisibleLayers r))
  ∧ preserved r (snd (Clear r)).
Proof.
  split; [|split; [|split]].
  - intros id. apply keeps_RenderLayer.
  - intros groupID layerID. apply keeps_RenderGroupLayer.
  - apply keeps_RenderVisibleLayers.
  - apply keeps_Clear.
Qed.

End frame.

(** ** Construction, render order, empty cells *)

Section construction.
Context `{Externals}.
Implicit Types (r : Renderer.t) (layer : tiled.Layer.t) (m : tiled.Map.t).

Lemma modest_sensible (z : Z) : modest z → sensible z.
Proof. unfold modest, sensible. lia. Qed.

(** The final image of a hexagonal map of modest sizes is less than 2^21
    pixels wide and high. *)
Lemma hexagonal_final_size_modest m (b : Bounds) :
  modest (tiled.Map.TileWidth m) → modest (tiled.Map.TileHeight m) →
  0 <= tiled.Map.HexSideLength m <= 2 ^ 10 →
  modest (limitX b) → modest (limitY b) →
  tiled.Map.StaggerAxis m = tiled.AxisX ∨ tiled.Map.StaggerAxis m = tiled.AxisY →
  let size := Hexagonal.GetFinalImageSize (Hexagonal.Init m) b in
  0 <= image.Dx size < 2 ^ 21 ∧ 0 <= image.Dy size < 2 ^ 21.
Proof.
  intros Htw Hth Hside HlX HlY Haxis size. subst size.
  rewrite hexagonal_final_size_eq.
  set (tw := tiled.Map.TileWidth m) in *. set (th := tiled.Map.TileHeight m) in *.
  set (side := tiled.Map.HexSideLength m) in *.
  assert (Hside' : 0 <= side <= 2 ^ 30) by lia.
  destruct (staggered_extent tw side (limitX b) (modest_sensible _ Htw) Hside'
              (modest_sensible _ HlX)) as [HwX _].
  destruct (plain_extent th (limitY b) (modest_sensible _ Hth) (modest_sensible _ HlY))
    as [HhX _].
  destruct (plain_extent tw (limitX b) (modest_sensible _ Htw) (modest_sensible _ HlX))
    as [HwY _].
  destruct (staggered_extent th side (limitY b) (modest_sensible _ Hth) Hside'
              (modest_sensible _ HlY)) as [HhY _].
  unfold modest in *.
  assert (Hstag : ∀ t l, 1 <= t <= 2 ^ 10 → 1 <= l <= 2 ^ 10 →
            0 <= l * (t - (t - side) ÷ 2) + (t - side) ÷ 2 < 2 ^ 21).
  { intros t l Ht Hl.
    assert (- 2 ^ 9 <= (t - side) ÷ 2 <= 2 ^ 9 ∧ 2 * ((t - side) ÷ 2) <= t) as [Ha Ha'].
    { destruct (quot2_bounds (t - side)) as [Hp Hn].
      destruct (Z.le_ge_cases 0 (t - side)) as [Hc|Hc];
        [specialize (Hp Hc)|specialize (Hn Hc)]; lia. }
    assert (0 < l * (t - (t - side) ÷ 2) <= 2 ^ 10 * (2 ^ 10 + 2 ^ 9)).
    { split; [nia|]. apply Z.mul_le_mono_nonneg; lia. }
    assert (t - (t - side) ÷ 2 <= l * (t - (t - side) ÷ 2)) by nia.
    lia. }
  assert (Hplain : ∀ t l, 1 <= t <= 2 ^ 10 → 1 <= l <= 2 ^ 10 →
            0 <= l * t + t ÷ 2 < 2 ^ 21).
  { intros t l Ht Hl.
    destruct (quot2_bounds t) as [Hp _]. specialize (Hp ltac:(lia)).
    assert (0 < l * t <= 2 ^ 10 * 2 ^ 10).
    { split; [nia|]. apply Z.mul_le_mono_nonneg; lia. }
    lia. }
  destruct Haxis as [-> | ->]; cbv zeta.
  - rewrite HwX, HhX.
    pose proof (Hstag tw (limitX b) Htw HlX). pose proof (Hplain th (limitY b) Hth HlY).
    rewrite Rect_ordered by lia.
    rewrite Dx_from_origin, Dy_from_origin by lia. lia.
  - rewrite HwY, HhY.
    pose proof (Hplain tw (limitX b) Htw HlX). pose proof (Hstag th (limitY b) Hth HlY).
    rewrite Rect_ordered by lia.
    rewrite Dx_from_origin, Dy_from_origin by lia. lia.
Qed.

(** X2: NewRendererWithFileSystem returns ErrUnsupportedOrientation for any
    orientation other than orthogonal and hexagonal.  For a hexagonal map
    with stagger axis X or Y whose tile sizes and dimensions lie between 1
    and 2^10, on a runtime that can provide the bytes of the final image,
    it succeeds, and the renderer it returns holds the map and the file
    system given, a viewport at offset (0,0) with the map's width and
    height as limits, an empty tile cache, the hexagonal engine, and a
    zeroed buffer whose rectangle is the engine's final image size. *)
Theorem NewRenderer_by_orientation m (fs : option (string → error + File)) :
  (tiled.Map.Orientation m ≠ "orthogonal" → tiled.Map.Orientation m ≠ "hexagonal" →
     NewRendererWithFileSystem m fs = Err ErrUnsupportedOrientation)
  ∧ (tiled.Map.Orientation m = "hexagonal" →
     modest (tiled.Map.TileWidth m) → modest (tiled.Map.TileHeight m) →
     0 <= tiled.Map.HexSideLength m <= 2 ^ 10 →
     modest (tiled.Map.Width m) → modest (tiled.Map.Height m) →
     tiled.Map.StaggerAxis m = tiled.AxisX ∨ tiled.Map.StaggerAxis m = tiled.AxisY →
     (let size := Hexagonal.GetFinalImageSize (Hexagonal.Init m)
                    (mkBounds 0 0 (tiled.Map.Width m) (tiled.Map.Height m)) in
      can_allocate (4 * image.Dx size * image.Dy size) = true) →
     ∃ r, NewRendererWithFileSystem m fs = Ok r
          ∧ Renderer.m r = m
          ∧ Renderer.fs r = fs
          ∧ Renderer.ResultBounds r = mkBounds 0 0 (tiled.Map.Width m) (tiled.Map.Height m)
          ∧ Renderer.tileCache r = ∅
          ∧ Renderer.engine r = Hexagonal.engine (Hexagonal.Init m)
          ∧ image.NRGBA.Rect (Renderer.Result r)
            = Hexagonal.GetFinalImageSize (Hexagonal.Init m) (Renderer.ResultBounds r)
          ∧ Forall (λ byte, byte = 0) (image.NRGBA.Pix (Renderer.Result r))).
Proof.
  unfold NewRendererWithFileSystem. split.
  - intros Hortho Hhex.
    apply String.eqb_neq in Hortho, Hhex. by rewrite Hortho, Hhex.
  - intros Hhex Htw Hth Hside Hw Hh Haxis Hcan. rewrite Hhex. simpl.
    set (b := mkBounds 0 0 (tiled.Map.Width m) (tiled.Map.Height m)) in *.
    destruct (hexagonal_final_size_modest m b Htw Hth Hside Hw Hh Haxis) as [Hdx Hdy].
    cbv zeta in Hcan.
    rewrite NewNRGBA_allocates; [| lia | lia | unfold maxAlloc; nia | exact Hcan]. simpl.
    eexists. split; [reflexivity|]. simpl. repeat split.
    apply Forall_forall. intros byte Hbyte. by apply elem_of_replicate in Hbyte as [-> _].
Qed.

(** X3: a render order other than right-down, or an orientation that is
    neither hexagonal nor orthogonal, makes the rendering of any layer
    return ErrUnsupportedRenderOrder with the renderer untouched; this is
    what RenderLayer returns for every existing layer. *)
Theorem unsupported_render_order_is_rejected r :
  let m := Renderer.m r in
  tiled.Map.RenderOrder m ≠ "right-down"
  ∨ (tiled.Map.Orientation m ≠ "hexagonal" ∧ tiled.Map.Orientation m ≠ "orthogonal") →
  (∀ layer, _renderLayer layer r = (Err ErrUnsupportedRenderOrder, r))
  ∧ (∀ id layer, 0 <= id → tiled.Map.Layers m !! Z.to_nat id = Some layer →
       RenderLayer id r = (Err ErrUnsupportedRenderOrder, r)).
Proof.
  intros m Hbad.
  assert (Hlayer : ∀ layer, _renderLayer layer r = (Err ErrUnsupportedRenderOrder, r)).
  { intros layer. unfold _renderLayer. rewrite bind_run; simpl. fold m.
    destruct Hbad as [Horder | [Hhex Hortho]].
    - apply String.eqb_neq in Horder. rewrite Horder. by rewrite andb_false_r.
    - apply String.eqb_neq in Hhex, Hortho. by rewrite Hhex, Hortho. }
  split; [exact Hlayer|].
  intros id layer Hid Hlookup. unfold RenderLayer. rewrite bind_run; simpl. fold m.
  pose proof (lookup_lt_Some _ _ _ Hlookup) as Hlt.
  destruct (Z.leb_spec (len (tiled.Map.Layers m)) id) as [Hge|_]; [unfold len in Hge; lia|].
  rewrite bind_run. unfold lift. rewrite (index_in_range _ _ _ Hid Hlookup). apply Hlayer.
Qed.

(** A loop whose body does nothing at the indices it visits does nothing. *)
Lemma for_loop_idle_within {A} (body : Z → A → M A) (n : nat) (i : Z) (a : A) r :
  (∀ j a', i <= j < i + Z.of_nat n → body j a' r = (Ok a', r)) →
  for_loop n i body a r = (Ok a, r).
Proof.
  revert i. induction n as [|n IH]; intros i Hbody; cbn [for_loop]; [done|].
  rewrite bind_run, Hbody by lia. apply IH. intros j a' Hj. apply Hbody. lia.
Qed.

Lemma for_range_idle_within {A} (body : Z → A → M A) (lo hi : Z) (a : A) r :
  (∀ j a', lo <= j < hi → body j a' r = (Ok a', r)) →
  for_range lo hi body a r = (Ok a, r).
Proof.
  intros Hbody. unfold for_range. apply for_loop_idle_within.
  intros j a' Hj. apply Hbody. lia.
Qed.

(** An empty cell is skipped. *)
Lemma renderTile_nil layer (i x y : Z) (startOdd : bool) (tile : tiled.LayerTile.t) r :
  0 <= i → tiled.Layer.Tiles layer !! Z.to_nat i = Some tile →
  tiled.LayerTile.IsNil tile = true →
  _renderTile layer i x y startOdd r = (Ok tt, r).
Proof.
  intros Hi Htile Hnil. unfold _renderTile.
  rewrite bind_run. unfold lift. rewrite (index_in_range _ _ _ Hi Htile).
  by rewrite Hnil.
Qed.

(** X4: rendering a layer made of empty (nil) cells only, one for each
    cell of the map, returns no error and leaves the renderer, output
    buffer and tile cache included, exactly as it was, wherever the
    viewport stands. *)
Theorem render_layer_of_nil_tiles_is_idle r layer :
  let m := Renderer.m r in
  let b := Renderer.ResultBounds r in
  (tiled.Map.Orientation m = "hexagonal" ∨ tiled.Map.Orientation m = "orthogonal") →
  tiled.Map.RenderOrder m = "right-down" →
  0 <= tiled.Map.Width m <= 2 ^ 30 → 0 <= tiled.Map.Height m <= 2 ^ 30 →
  0 <= offsetX b → 0 <= offsetY b →
  len (tiled.Layer.Tiles layer) = tiled.Map.Width m * tiled.Map.Height m →
  Forall (λ tile, tiled.LayerTile.IsNil tile = true) (tiled.Layer.Tiles layer) →
  _renderLayer layer r = (Ok tt, r).
Proof.
  intros m b Horient Horder Hw Hh HoX HoY Hlen Hnil.
  unfold _renderLayer. rewrite bind_run; simpl. fold m b.
  assert (String.eqb (tiled.Map.Orientation m) "hexagonal"
          || String.eqb (tiled.Map.Orientation m) "orthogonal" = true) as ->.
  { destruct Horient as [-> | ->]; reflexivity. }
  rewrite Horder; simpl.
  pose proof (clamped_end (tiled.Map.Width m) (offsetX b +! limitX b)) as Hxe.
  pose proof (clamped_end (tiled.Map.Height m) (offsetY b +! limitY b)) as Hye.
  apply for_range_idle_within. intros y [] Hy.
  apply for_range_idle_within. intros x [] Hx.
  assert (Hcell : 0 <= y * tiled.Map.Width m + x < tiled.Map.Width m * tiled.Map.Height m) by nia.
  assert (Hbig : tiled.Map.Width m * tiled.Map.Height m <= 2 ^ 30 * 2 ^ 30).
  { apply Z.mul_le_mono_nonneg; lia. }
  assert (Hi : y *! tiled.Map.Width m +! x = y * tiled.Map.Width m + x).
  { assert (0 <= y * tiled.Map.Width m <= 2 ^ 30 * 2 ^ 30) by nia.
    rewrite int_mul_small by (unfold is_int; lia).
    apply int_add_small. unfold is_int; lia. }
  rewrite Hi.
  destruct (lookup_lt_is_Some_2 (tiled.Layer.Tiles layer)
              (Z.to_nat (y * tiled.Map.Width m + x))) as [tile Htile].
  { unfold len in Hlen. lia. }
  apply (renderTile_nil _ _ _ _ _ tile); [lia | exact Htile |].
  rewrite Forall_forall in Hnil. apply Hnil. by eapply list_elem_of_lookup_2.
Qed.

End construction.

(** ** Resolving tile images: hits, failures, unknown tiles *)

Section resolve.
Context `{Externals}.
Implicit Types (r : Renderer.t) (tile : tiled.LayerTile.t) (ts : tiled.Tileset.t).

Lemma hexagonal_rotate_some (e : Hexagonal.HexagonalRendererEngine) tile (img : Img) :
  Hexagonal.RotateTileImage e tile (Some img) = Ok (Some (oriented tile img)).
Proof.
  unfold Hexagonal.RotateTileImage, oriented.
  destruct (tiled.LayerTile.HorizontalFlip tile), (tiled.LayerTile.VerticalFlip tile),
    (tiled.LayerTile.DiagonalFlip tile); reflexivity.
Qed.

Lemma hexagonal_rotate_nil (e : Hexagonal.HexagonalRendererEngine) tile :
  Hexagonal.RotateTileImage e tile None = Ok None
  ∨ Hexagonal.RotateTileImage e tile None = Panic NilDereference.
Proof.
  unfold Hexagonal.RotateTileImage.
  destruct (tiled.LayerTile.HorizontalFlip tile), (tiled.LayerTile.VerticalFlip tile),
    (tiled.LayerTile.DiagonalFlip tile); simpl; auto.
Qed.

(** A cached tile is answered from the cache. *)
Lemma getTileImage_hit r tile ts (img : Img) :
  tiled.LayerTile.Tileset tile = Some ts →
  Renderer.tileCache r !! cacheKey ts (tiled.LayerTile.ID tile) = Some img →
  getTileImage tile r = (RotateTileImage (Renderer.engine r) tile (Some img), r).
Proof.
  intros Hts Hhit. unfold getTileImage. rewrite bind_run, Hts; simpl.
  rewrite bind_run; simpl. by rewrite Hhit.
Qed.

(** What a miss runs. *)
Lemma getTileImage_miss r tile ts :
  tiled.LayerTile.Tileset tile = Some ts →
  Renderer.tileCache r !! cacheKey ts (tiled.LayerTile.ID tile) = None →
  getTileImage tile r =
    ((match tiled.Tileset.Image ts with
      | None => loadTileImages tile ts (tiled.Tileset.Tiles ts) None
      | Some image =>
          sf ← open (GetFileFullPath ts (tiled.Image.Source image));
          img ← of_error (image_Decode sf);
          for_range 0 (uint32 (tiled.Tileset.TileCount ts)) (cropTile tile ts img) None
      end) ≫= λ timg, r ← get; lift (RotateTileImage (Renderer.engine r) tile timg)) r.
Proof.
  intros Hts Hmiss. unfold getTileImage. rewrite bind_run, Hts; simpl.
  rewrite bind_run; simpl. by rewrite Hmiss.
Qed.

(** The image the loop over the atlas picks for the requested tile. *)
Lemma crop_loop_result tile ts (img : Img) (n : nat) :
  ∀ (i : Z) (timg : Image) r,
    fst (for_loop n i (cropTile tile ts img) timg r)
    = Ok (if (i <=? tiled.LayerTile.ID tile) && (tiled.LayerTile.ID tile <? i + Z.of_nat n)
          then Some (cell ts img (tiled.LayerTile.ID tile)) else timg).
Proof.
  induction n as [|n IH]; intros i timg r.
  - cbn [for_loop]. simpl.
    destruct (Z.leb_spec i (tiled.LayerTile.ID tile)),
      (Z.ltb_spec (tiled.LayerTile.ID tile) (i + Z.of_nat 0));
      simpl; first [done | lia].
  - cbn [for_loop]. rewrite bind_run, cropTile_run, IH. f_equal. unfold cell.
    destruct (Z.eqb_spec (tiled.LayerTile.ID tile) i) as [->|Hne].
    + destruct (Z.leb_spec (i + 1) i); [lia|]. simpl.
      destruct (Z.leb_spec i i); [|lia].
      destruct (Z.ltb_spec i (i + Z.of_nat (S n))); [done | lia].
    + destruct (Z.leb_spec (i + 1) (tiled.LayerTile.ID tile)),
        (Z.leb_spec i (tiled.LayerTile.ID tile)),
        (Z.ltb_spec (tiled.LayerTile.ID tile) (i + 1 + Z.of_nat n)),
        (Z.ltb_spec (tiled.LayerTile.ID tile) (i + Z.of_nat (S n))); simpl; first [done | lia].
Qed.

(** A miss on a tile of an atlas whose file opens and decodes. *)
Lemma getTileImage_atlas_miss r tile ts (image : tiled.Image.t) (img : Img) :
  tiled.LayerTile.Tileset tile = Some ts →
  Renderer.tileCache r !! cacheKey ts (tiled.LayerTile.ID tile) = None →
  tiled.Tileset.Image ts = Some image →
  loads r ts (tiled.Image.Source image) = inr img →
  0 <= tiled.Tileset.TileCount ts < 2 ^ 32 →
  ∃ cache : gmap Z Img,
    getTileImage tile r
      = (RotateTileImage (Renderer.engine r) tile
           (if (0 <=? tiled.LayerTile.ID tile)
               && (tiled.LayerTile.ID tile <? tiled.Tileset.TileCount ts)
            then Some (cell ts img (tiled.LayerTile.ID tile)) else None),
         set_tileCache cache r)
    ∧ (∀ i, 0 <= i < tiled.Tileset.TileCount ts → cache !! cacheKey ts i = Some (cell ts img i))
    ∧ (∀ k, (∀ i, 0 <= i < tiled.Tileset.TileCount ts → k ≠ cacheKey ts i) →
         cache !! k = Renderer.tileCache r !! k).
Proof.
  intros Hts Hmiss Himage Hloads Hcount.
  rewrite (getTileImage_miss _ _ _ Hts Hmiss), Himage.
  unfold loads in Hloads.
  rewrite !bind_run, open_run.
  destruct (opened r _) as [e|sf]; [done|].
  rewrite Hloads; simpl. rewrite bind_run; simpl.
  unfold for_range. rewrite uint32_small, Z.sub_0_r by done.
  pose proof (crop_loop_result tile ts img (Z.to_nat (tiled.Tileset.TileCount ts)) 0 None r)
    as Hres.
  destruct (crop_loop tile ts img (Z.to_nat (tiled.Tileset.TileCount ts)) 0 None r)
    as (cache & timg & Hrun & Hin & Hout); [lia | lia |].
  rewrite Hrun in Hres |- *. simpl in Hres. injection Hres as ->.
  rewrite Z2Nat.id, Z.add_0_l by lia. simpl.
  exists cache. split; [done|]. split.
  - intros i Hi. apply Hin. lia.
  - intros k Hk. apply Hout. intros j Hj. apply Hk. lia.
Qed.

(** X5: on a miss on a tile of an atlas tileset whose file opens and
    decodes, getTileImage returns the tile's cell of the atlas with the
    tile's flips applied by the engine; and from then on resolving any tile
    of that tileset needs no file: whatever file system the renderer holds
    by then, one on which nothing opens included, getTileImage returns that
    tile's cell of the atlas decoded at the miss, with that tile's flips
    applied, and changes nothing, the cache included. *)
Theorem atlas_is_resolved_once r tile ts (image : tiled.Image.t) (img : Img) :
  tiled.LayerTile.Tileset tile = Some ts →
  Renderer.tileCache r !! cacheKey ts (tiled.LayerTile.ID tile) = None →
  tiled.Tileset.Image ts = Some image →
  loads r ts (tiled.Image.Source image) = inr img →
  0 <= tiled.Tileset.TileCount ts < 2 ^ 32 →
  0 <= tiled.LayerTile.ID tile < tiled.Tileset.TileCount ts →
  let r' := snd (getTileImage tile r) in
  fst (getTileImage tile r)
    = RotateTileImage (Renderer.engine r) tile (Some (cell ts img (tiled.LayerTile.ID tile)))
  ∧ ∀ tile' (disk : option (string → error + File)),
      tiled.LayerTile.Tileset tile' = Some ts →
      0 <= tiled.LayerTile.ID tile' < tiled.Tileset.TileCount ts →
      getTileImage tile' (set_fs disk r')
        = (RotateTileImage (Renderer.engine r) tile'
             (Some (cell ts img (tiled.LayerTile.ID tile'))), set_fs disk r').
Proof.
  intros Hts Hmiss Himage Hloads Hcount Hid r'. subst r'.
  destruct (getTileImage_atlas_miss r tile ts image img Hts Hmiss Himage Hloads Hcount)
    as (cache & Hrun & Hin & _).
  rewrite Hrun; simpl.
  destruct (Z.leb_spec 0 (tiled.LayerTile.ID tile)); [|lia].
  destruct (Z.ltb_spec (tiled.LayerTile.ID tile) (tiled.Tileset.TileCount ts)); [|lia].
  split; [done|].
  intros tile' disk Hts' Hid'.
  apply (getTileImage_hit (set_fs disk (set_tileCache cache r)) tile' ts
           (cell ts img (tiled.LayerTile.ID tile')) Hts').
  simpl. by apply Hin.
Qed.

(** X6: a failure to open or to decode the backing file aborts the
    resolution: getTileImage returns that error and leaves the renderer,
    its cache included, as it was.  This holds for the atlas of an atlas
    tileset and for the file of the first entry of the requested id in a
    tileset of single images. *)
Theorem getTileImage_io_error r tile ts (e : error) :
  tiled.LayerTile.Tileset tile = Some ts →
  Renderer.tileCache r !! cacheKey ts (tiled.LayerTile.ID tile) = None →
  (∀ image, tiled.Tileset.Image ts = Some image →
     loads r ts (tiled.Image.Source image) = inl e →
     getTileImage tile r = (Err e, r))
  ∧ (∀ before t after image,
       tiled.Tileset.Image ts = None →
       tiled.Tileset.Tiles ts = before ++ t :: after →
       Forall (λ t', tiled.TilesetTile.ID t' ≠ tiled.LayerTile.ID tile) before →
       tiled.TilesetTile.ID t = tiled.LayerTile.ID tile →
       tiled.TilesetTile.Image t = Some image →
       loads r ts (tiled.Image.Source image) = inl e →
       getTileImage tile r = (Err e, r)).
Proof.
  intros Hts Hmiss. rewrite (getTileImage_miss _ _ _ Hts Hmiss). split.
  - intros image Himage Hloads. rewrite Himage. unfold loads in Hloads.
    rewrite !bind_run, open_run.
    destruct (opened r _) as [e'|sf]; [by injection Hloads as ->|].
    by rewrite Hloads.
  - intros before t after image Himage Htiles Hbefore Hid Ht Hloads.
    rewrite Himage, bind_run, Htiles.
    rewrite (loadTileImages_skip_app _ _ _ _ _ _ Hbefore).
    unfold loads in Hloads.
    cbn [loadTileImages]. rewrite bind_run, Hid, Z.eqb_refl, Ht.
    rewrite bind_run; simpl. rewrite bind_run, open_run.
    destruct (opened r _) as [e'|sf]; [by injection Hloads as ->|].
    rewrite bind_run, Hloads. reflexivity.
Qed.

(** X7: a cell that is not empty and whose tile id has no entry in its
    tileset of single images is not reported as an error: with the
    hexagonal engine _renderTile stops with a nil-dereference panic,
    nothing drawn and nothing cached. *)
Theorem renderTile_unknown_tile_panics r (layer : tiled.Layer.t) (i x y : Z)
    (startOdd : bool) tile ts (e : Hexagonal.HexagonalRendererEngine) :
  Renderer.engine r = Hexagonal.engine e →
  0 <= i → tiled.Layer.Tiles layer !! Z.to_nat i = Some tile →
  tiled.LayerTile.IsNil tile = false →
  tiled.LayerTile.Tileset tile = Some ts →
  Renderer.tileCache r !! cacheKey ts (tiled.LayerTile.ID tile) = None →
  tiled.Tileset.Image ts = None →
  Forall (λ t, tiled.TilesetTile.ID t ≠ tiled.LayerTile.ID tile) (tiled.Tileset.Tiles ts) →
  _renderTile layer i x y startOdd r = (Panic NilDereference, r).
Proof.
  intros Hengine Hi Htile Hnil Hts Hmiss Himage Hnone.
  unfold _renderTile. rewrite bind_run. unfold lift.
  rewrite (index_in_range _ _ _ Hi Htile), Hnil.
  rewrite bind_run, (getTileImage_miss _ _ _ Hts Hmiss), Himage.
  rewrite bind_run, (loadTileImages_skip _ _ _ _ _ Hnone).
  rewrite bind_run; simpl. rewrite Hengine; simpl.
  destruct (hexagonal_rotate_nil e tile) as [-> | ->]; [|done].
  rewrite bind_run; simpl.
  by destruct (tiled.lt_one _).
Qed.

(** Drawing a cell whose tile is already cached changes the output buffer
    only, by one draw of the cached image, oriented by the tile's flags, at
    the rectangle the engine gives for the cell: a masked draw when the
    layer's opacity is below 1 and a plain draw otherwise. *)
Lemma renderTile_cached_run r (layer : tiled.Layer.t) (i x y : Z)
    (startOdd : bool) tile ts (img : Img) (e : Hexagonal.HexagonalRendererEngine) :
  Renderer.engine r = Hexagonal.engine e →
  0 <= i → tiled.Layer.Tiles layer !! Z.to_nat i = Some tile →
  tiled.LayerTile.IsNil tile = false →
  tiled.LayerTile.Tileset tile = Some ts →
  Renderer.tileCache r !! cacheKey ts (tiled.LayerTile.ID tile) = Some img →
  let pos := Hexagonal.GetTilePosition e x y startOdd in
  let src := oriented tile img in
  _renderTile layer i x y startOdd r
  = (Ok tt,
     set_Result
       (if tiled.lt_one (tiled.Layer.Opacity layer)
        then draw_DrawMask (Renderer.Result r) pos src (image.Min (Img_Bounds src))
               (tiled.alpha255 (tiled.Layer.Opacity layer))
        else draw_Draw (Renderer.Result r) pos src (image.Min (Img_Bounds src))) r).
Proof.
  intros Hengine Hi Htile Hnil Hts Hhit pos src.
  unfold _renderTile. rewrite bind_run. unfold lift.
  rewrite (index_in_range _ _ _ Hi Htile), Hnil.
  rewrite bind_run, (getTileImage_hit _ _ _ _ Hts Hhit).
  rewrite Hengine; simpl. rewrite hexagonal_rotate_some.
  rewrite bind_run; simpl. rewrite Hengine; simpl.
  by destruct (tiled.lt_one _).
Qed.

End resolve.

(** ** Where the hexagonal engine puts a cell *)

(** The parity test of GetTilePosition on a coordinate that is not
    negative: the cell is bumped when its parity differs from [startOdd]. *)
Lemma parity_test (x : Z) (startOdd : bool) :
  0 <= x → ((x %! 2) =? (if startOdd then 0 else 1)) = xorb (Z.odd x) startOdd.
Proof.
  intros Hx. unfold int_rem.
  destruct (Z.odd x) eqn:Hodd.
  - apply Z.odd_spec in Hodd as [k ->].
    assert (Z.rem (2 * k + 1) 2 = 1) as -> by (Z.to_euclidean_division_equations; lia).
    by destruct startOdd.
  - assert (Z.even x = true) as Heven by (by rewrite <- Z.negb_odd, Hodd).
    apply Z.even_spec in Heven as [k ->].
    assert (Z.rem (2 * k) 2 = 0) as -> by (Z.to_euclidean_division_equations; lia).
    by destruct startOdd.
Qed.

(** The step from one staggered column (or row) to the next: with tiles of
    [t] pixels and hexagon side [s] it is computed without overflow, it is
    not negative, and when the side fits in the tile it is at most the
    tile less the addon of the final image size. *)
Lemma stagger_step (t s : Z) :
  sensible t → 0 <= s <= 2 ^ 30 →
  let step := (t - s) ÷ 2 + s in
  (t -! s) /! 2 +! s = step
  ∧ 0 <= step <= 2 ^ 31
  ∧ (s <= t → step <= t - (t - s) ÷ 2).
Proof.
  intros Ht Hs step. subst step. unfold sensible in *.
  destruct (quot2_bounds (t - s)) as [Hp Hn].
  assert (- 2 ^ 29 <= (t - s) ÷ 2 <= 2 ^ 29 ∧ - s <= 2 * ((t - s) ÷ 2)) as [Ha Ha'].
  { destruct (Z.le_ge_cases 0 (t - s)) as [Hc|Hc];
      [specialize (Hp Hc)|specialize (Hn Hc)]; lia. }
  rewrite (int_sub_small t s) by (unfold is_int; lia).
  rewrite (int_quo_small (t - s) 2) by (unfold is_int; lia).
  rewrite int_add_small by (unfold is_int; lia).
  split; [done|]. split; [lia|].
  intros Hst. specialize (Hp ltac:(lia)). lia.
Qed.

(** The staggered coordinates of a cell: column (or row) [k] at step
    [step] with a tile of [t] pixels. *)
Lemma staggered_edges (k step t : Z) :
  0 <= k <= 2 ^ 30 → 0 <= step <= 2 ^ 31 → sensible t →
  k *! step = k * step ∧ k *! step +! t = k * step + t
  ∧ (k +! 1) *! step +! t = (k + 1) * step + t
  ∧ 0 <= k * step <= 2 ^ 61.
Proof.
  unfold sensible. intros Hk Hstep Ht.
  assert (0 <= k * step <= 2 ^ 30 * 2 ^ 31).
  { split; [nia|]. apply Z.mul_le_mono_nonneg; lia. }
  assert (0 <= (k + 1) * step <= (2 ^ 30 + 1) * 2 ^ 31).
  { split; [nia|]. apply Z.mul_le_mono_nonneg; lia. }
  rewrite (int_add_small k 1) by (unfold is_int; lia).
  rewrite !int_mul_small by (unfold is_int; lia).
  rewrite !int_add_small by (unfold is_int; lia).
  repeat split; lia.
Qed.

(** The bumped coordinates of a cell: row (or column) [k] of tiles of [t]
    pixels, pushed by [bump], spanning [n] tiles. *)
Lemma bumped_edges (k t bump n : Z) :
  0 <= k <= 2 ^ 30 → sensible t → 0 <= bump <= t → 0 <= n <= 2 →
  k *! t +! bump = k * t + bump
  ∧ (k +! n) *! t +! bump = (k + n) * t + bump.
Proof.
  unfold sensible. intros Hk Ht Hbump Hn.
  assert (0 <= k * t <= 2 ^ 30 * 2 ^ 30).
  { split; [nia|]. apply Z.mul_le_mono_nonneg; lia. }
  assert (0 <= (k + n) * t <= (2 ^ 30 + 2) * 2 ^ 30).
  { split; [nia|]. apply Z.mul_le_mono_nonneg; lia. }
  rewrite (int_add_small k n) by (unfold is_int; lia).
  rewrite !int_mul_small by (unfold is_int; lia).
  rewrite !int_add_small by (unfold is_int; lia).
  done.
Qed.

Lemma half_tile (t : Z) : sensible t → t /! 2 = t ÷ 2 ∧ 0 <= t ÷ 2 <= t.
Proof.
  unfold sensible. intros Ht. destruct (quot2_bounds t) as [Hp _].
  specialize (Hp ltac:(lia)). rewrite int_quo_small by (unfold is_int; lia). lia.
Qed.

(** The rectangle of a cell, in the integers. *)
Lemma hexagonal_tile_position_eq (m : tiled.Map.t) (x y : Z) (startOdd : bool) :
  let tw := tiled.Map.TileWidth m in
  let th := tiled.Map.TileHeight m in
  let side := tiled.Map.HexSideLength m in
  sensible tw → sensible th → 0 <= side <= 2 ^ 30 →
  0 <= x <= 2 ^ 30 → 0 <= y <= 2 ^ 30 →
  Hexagonal.GetTilePosition (Hexagonal.Init m) x y startOdd =
    match tiled.Map.StaggerAxis m with
    | tiled.AxisX =>
        let step := (tw - side) ÷ 2 + side in
        let bump := if xorb (Z.odd x) startOdd then th ÷ 2 else 0 in
        image.Rectangle_ (image.Pt (x * step) (y * th + bump))
                         (image.Pt (x * step + tw) ((y + 2) * th + bump))
    | tiled.AxisY =>
        let step := (th - side) ÷ 2 + side in
        let bump := if xorb (Z.odd y) startOdd then tw ÷ 2 else 0 in
        image.Rectangle_ (image.Pt (x * tw + bump) (y * step))
                         (image.Pt ((x + 2) * tw + bump) ((y + 1) * step + th))
    | tiled.AxisOther _ => image.ZR
    end.
Proof.
  intros tw th side Htw Hth Hside Hx Hy.
  unfold Hexagonal.GetTilePosition, Hexagonal.Init. cbn [Hexagonal.m]. fold tw th side.
  destruct (half_tile tw Htw) as [Hhw Hhw']. destruct (half_tile th Hth) as [Hhh Hhh'].
  destruct (tiled.Map.StaggerAxis m); [| |done]; cbv zeta.
  - destruct (stagger_step tw side Htw Hside) as (-> & Hstep & _).
    rewrite (parity_test x startOdd) by lia. rewrite Hhh.
    set (bump := if xorb (Z.odd x) startOdd then th ÷ 2 else 0).
    assert (Hbump : 0 <= bump <= th) by (subst bump; destruct (xorb _ _); lia).
    destruct (staggered_edges x ((tw - side) ÷ 2 + side) tw Hx Hstep Htw) as (-> & -> & _ & ?).
    destruct (bumped_edges y th bump 2 Hy Hth Hbump ltac:(lia)) as (-> & ->).
    unfold sensible in *. apply Rect_ordered; nia.
  - destruct (stagger_step th side Hth Hside) as (-> & Hstep & _).
    rewrite (parity_test y startOdd) by lia. rewrite Hhw.
    set (bump := if xorb (Z.odd y) startOdd then tw ÷ 2 else 0).
    assert (Hbump : 0 <= bump <= tw) by (subst bump; destruct (xorb _ _); lia).
    destruct (staggered_edges y ((th - side) ÷ 2 + side) th Hy Hstep Hth) as (-> & _ & -> & ?).
    destruct (bumped_edges x tw bump 2 Hx Htw Hbump ltac:(lia)) as (-> & ->).
    unfold sensible in *. apply Rect_ordered; nia.
Qed.

(** X9: for tile sizes between 1 and 2^30, a side between 0 and 2^30 and
    cell coordinates between 0 and 2^30, GetTilePosition with stagger axis
    X puts cell (x, y) at column step (tileWidth-side)/2+side, pushed down
    by tileHeight/2 when the parity of x differs from startOdd, in a
    rectangle one tile wide and two tiles high; with stagger axis Y it
    puts it at row step (tileHeight-side)/2+side, pushed right by
    tileWidth/2 when the parity of y differs from startOdd, in a rectangle
    two tiles wide and one step plus one tile high; any other axis gives
    the empty rectangle. *)
Theorem hexagonal_tile_position (m : tiled.Map.t) (x y : Z) (startOdd : bool) :
  let e := Hexagonal.Init m in
  let tw := tiled.Map.TileWidth m in
  let th := tiled.Map.TileHeight m in
  let side := tiled.Map.HexSideLength m in
  sensible tw → sensible th → 0 <= side <= 2 ^ 30 →
  0 <= x <= 2 ^ 30 → 0 <= y <= 2 ^ 30 →
  (tiled.Map.StaggerAxis m = tiled.AxisX →
     let pos := Hexagonal.GetTilePosition e x y startOdd in
     image.Min pos = image.Pt (x * ((tw - side) ÷ 2 + side))
                              (y * th + (if xorb (Z.odd x) startOdd then th ÷ 2 else 0))
     ∧ image.Dx pos = tw ∧ image.Dy pos = 2 * th)
  ∧ (tiled.Map.StaggerAxis m = tiled.AxisY →
     let pos := Hexagonal.GetTilePosition e x y startOdd in
     image.Min pos = image.Pt (x * tw + (if xorb (Z.odd y) startOdd then tw ÷ 2 else 0))
                              (y * ((th - side) ÷ 2 + side))
     ∧ image.Dx pos = 2 * tw ∧ image.Dy pos = (th - side) ÷ 2 + side + th)
  ∧ (∀ name, tiled.Map.StaggerAxis m = tiled.AxisOther name →
     Hexagonal.GetTilePosition e x y startOdd = image.ZR).
Proof.
  intros e tw th side Htw Hth Hside Hx Hy. subst e.
  rewrite (hexagonal_tile_position_eq m x y startOdd Htw Hth Hside Hx Hy).
  fold tw th side. unfold sensible in *.
  split; [|split].
  - intros ->. cbv zeta. split; [done|].
    unfold image.Dx, image.Dy; simpl.
    set (bump := if xorb (Z.odd x) startOdd then th ÷ 2 else 0).
    rewrite !int_sub_small by (unfold is_int; lia). lia.
  - intros ->. cbv zeta. split; [done|].
    unfold image.Dx, image.Dy; simpl.
    set (bump := if xorb (Z.odd y) startOdd then tw ÷ 2 else 0).
    destruct (quot2_bounds (th - side)) as [Hp Hn].
    assert (- 2 ^ 29 <= (th - side) ÷ 2 <= 2 ^ 29).
    { destruct (Z.le_ge_cases 0 (th - side)) as [Hc|Hc];
        [specialize (Hp Hc)|specialize (Hn Hc)]; lia. }
    rewrite !int_sub_small by (unfold is_int; lia). lia.
  - by intros name ->.
Qed.

(** X10: the final image is large enough for the cells of the viewport.
    With a hexagon side that fits in the tile, for every cell (x, y) with
    0 <= x < limitX and 0 <= y < limitY and either value of startOdd, the
    origin of the cell's rectangle is inside the final image and a
    tile-sized image placed at it ends inside the final image. *)
Theorem hexagonal_cells_fit_final_image (m : tiled.Map.t) (b : Bounds) (x y : Z)
    (startOdd : bool) :
  let e := Hexagonal.Init m in
  let tw := tiled.Map.TileWidth m in
  let th := tiled.Map.TileHeight m in
  let side := tiled.Map.HexSideLength m in
  sensible tw → sensible th → 0 <= side → side <= tw → side <= th →
  sensible (limitX b) → sensible (limitY b) →
  tiled.Map.StaggerAxis m = tiled.AxisX ∨ tiled.Map.StaggerAxis m = tiled.AxisY →
  0 <= x < limitX b → 0 <= y < limitY b →
  let pos := Hexagonal.GetTilePosition e x y startOdd in
  let size := Hexagonal.GetFinalImageSize e b in
  image.Min size = image.Pt 0 0
  ∧ 0 <= image.X (image.Min pos)
  ∧ image.X (image.Min pos) + tw <= image.X (image.Max size)
  ∧ 0 <= image.Y (image.Min pos)
  ∧ image.Y (image.Min pos) + th <= image.Y (image.Max size).
Proof.
  intros e tw th side Htw Hth Hside Hsw Hsh HlX HlY Haxis Hx Hy pos size.
  subst pos size e.
  assert (Hside' : 0 <= side <= 2 ^ 30) by (unfold sensible in *; lia).
  rewrite (hexagonal_tile_position_eq m x y startOdd Htw Hth Hside')
    by (unfold sensible in *; lia).
  rewrite hexagonal_final_size_eq. fold tw th side.
  destruct (staggered_extent tw side (limitX b) Htw Hside' HlX) as [HwX ?].
  destruct (plain_extent th (limitY b) Hth HlY) as [HhX ?].
  destruct (plain_extent tw (limitX b) Htw HlX) as [HwY ?].
  destruct (staggered_extent th side (limitY b) Hth Hside' HlY) as [HhY ?].
  destruct (stagger_step tw side Htw Hside') as (_ & HstepX & HleX).
  destruct (stagger_step th side Hth Hside') as (_ & HstepY & HleY).
  specialize (HleX Hsw). specialize (HleY Hsh).
  destruct (half_tile tw Htw) as [_ Hhw]. destruct (half_tile th Hth) as [_ Hhh].
  unfold sensible in *.
  destruct Haxis as [-> | ->]; cbv zeta.
  - rewrite HwX, HhX, Rect_ordered by lia. simpl.
    set (step := (tw - side) ÷ 2 + side) in *.
    set (addon := (tw - side) ÷ 2) in *.
    assert (x * step <= (limitX b - 1) * (tw - addon)).
    { apply Z.mul_le_mono_nonneg; lia. }
    assert (y * th <= (limitY b - 1) * th) by (apply Z.mul_le_mono_nonneg_r; lia).
    split; [done|]. destruct (xorb _ _); repeat split; nia.
  - rewrite HwY, HhY, Rect_ordered by lia. simpl.
    set (step := (th - side) ÷ 2 + side) in *.
    set (addon := (th - side) ÷ 2) in *.
    assert (y * step <= (limitY b - 1) * (th - addon)).
    { apply Z.mul_le_mono_nonneg; lia. }
    assert (x * tw <= (limitX b - 1) * tw) by (apply Z.mul_le_mono_nonneg_r; lia).
    split; [done|]. destruct (xorb _ _); repeat split; nia.
Qed.

(** ** How the operations compose *)

(** X11: SetLimit and AddOffset act on different fields and commute;
    SetLimit twice with the same request is SetLimit once, and a second
    SetLimit with positive limits overrides the first. *)
Theorem viewport_operations_compose (b : Bounds) (x y lx ly : Z) :
  AddOffset (SetLimit b lx ly) x y = SetLimit (AddOffset b x y) lx ly
  ∧ SetLimit (SetLimit b lx ly) lx ly = SetLimit b lx ly
  ∧ (∀ lx' ly', 1 <= lx' → 1 <= ly' →
       SetLimit (SetLimit b lx ly) lx' ly' = SetLimit b lx' ly').
Proof.
  split; [|split].
  - rewrite !AddOffset_fields. unfold SetLimit.
    destruct (1 <=? lx), (1 <=? ly); reflexivity.
  - unfold SetLimit. destruct (1 <=? lx), (1 <=? ly); reflexivity.
  - intros lx' ly' Hx Hy. unfold SetLimit.
    destruct (Z.leb_spec 1 lx'); [|lia]. destruct (Z.leb_spec 1 ly'); [|lia].
    destruct (1 <=? lx), (1 <=? ly); reflexivity.
Qed.

Section composition.
Context `{Externals}.
Implicit Types (r : Renderer.t) (layer : tiled.Layer.t).

Lemma Clear_run r :
  Clear r =
    match image.NewNRGBA (GetFinalImageSize (Renderer.engine r) (Renderer.ResultBounds r)) with
    | Ok buf => (Ok tt, set_Result buf r)
    | Err e => (Err e, r)
    | Panic p => (Panic p, r)
    end.
Proof.
  unfold Clear. rewrite !bind_run; simpl. unfold lift.
  by destruct (image.NewNRGBA _).
Qed.

(** X12: Clear depends on the engine and the viewport only.  On any
    renderer left by rendering, it returns what it returns on the renderer
    rendered from, and when it succeeds the buffer it leaves is the same
    zeroed buffer: what was drawn is gone.  In particular Clear after
    Clear changes nothing more. *)
Theorem Clear_resets_what_was_rendered r r' :
  preserved r r' →
  fst (Clear r') = fst (Clear r)
  ∧ (fst (Clear r) = Ok tt →
     Renderer.Result (snd (Clear r')) = Renderer.Result (snd (Clear r)))
  ∧ Clear (snd (Clear r)) = (fst (Clear r), snd (Clear r)).
Proof.
  intros (_ & Hb & He & _).
  pose proof (Clear_run r) as Hr. pose proof (Clear_run r') as Hr'.
  rewrite He, Hb in Hr'.
  destruct (image.NewNRGBA _) as [buf|e|p] eqn:Hnew; rewrite Hr, Hr'; simpl.
  - repeat split. rewrite Clear_run; simpl. by rewrite Hnew.
  - repeat split; [done|]. by rewrite Clear_run, Hnew.
  - repeat split; [done|]. by rewrite Clear_run, Hnew.
Qed.

(** The loop of RenderVisibleLayers from index [len before] on, on any
    renderer that holds the same map. *)
Lemma visible_loop r (before rest : list tiled.Layer.t) :
  tiled.Map.Layers (Renderer.m r) = before ++ rest →
  ∀ r', Renderer.m r' = Renderer.m r →
    for_loop (length rest) (len before)
      (λ i _, layer ← lift (index (tiled.Map.Layers (Renderer.m r)) i);
              if negb (tiled.Layer.Visible layer) then mret tt else RenderLayer i) tt r'
    = renderLayers (visible_from (len before) rest) r'.
Proof.
  revert before. induction rest as [|layer rest IH]; intros before Hlayers r' Hm; [done|].
  cbn [length for_loop visible_from].
  assert (Hlookup : tiled.Map.Layers (Renderer.m r) !! Z.to_nat (len before) = Some layer).
  { rewrite Hlayers. unfold len. rewrite Nat2Z.id. by apply list_lookup_middle. }
  assert (Hnext : len before + 1 = len (before ++ [layer])).
  { unfold len. rewrite length_app. simpl. lia. }
  assert (Hlayers' : tiled.Map.Layers (Renderer.m r) = (before ++ [layer]) ++ rest).
  { by rewrite <- app_assoc. }
  rewrite bind_run, bind_run. unfold lift at 1.
  assert (Hpos : 0 <= len before) by (unfold len; lia).
  rewrite (index_in_range _ _ _ Hpos Hlookup).
  destruct (tiled.Layer.Visible layer); simpl.
  - rewrite bind_run.
    pose proof (keeps_RenderLayer (len before) r') as (Hm' & _).
    destruct (RenderLayer (len before) r') as [[[]|e|p] r'']; [|done..].
    rewrite Hnext. apply (IH _ Hlayers'). simpl in Hm'. congruence.
  - rewrite Hnext. by apply (IH _ Hlayers').
Qed.

Lemma visible_from_hidden (layers : list tiled.Layer.t) (i : Z) :
  Forall (λ layer, tiled.Layer.Visible layer = false) layers → visible_from i layers = [].
Proof.
  intros Hnone. revert i.
  induction Hnone as [|layer rest Hhidden _ IH]; intros i; [done|].
  cbn [visible_from]. rewrite Hhidden. apply IH.
Qed.

(** X13: RenderVisibleLayers is RenderLayer on the indices of the visible
    top-level layers, in stored order, each on the renderer the previous
    one left, stopping at the first error or panic; invisible layers are
    skipped, and with no visible layer it succeeds and changes nothing. *)
Theorem RenderVisibleLayers_renders_visible_in_order r :
  RenderVisibleLayers r = renderLayers (visible_from 0 (tiled.Map.Layers (Renderer.m r))) r
  ∧ (Forall (λ layer, tiled.Layer.Visible layer = false) (tiled.Map.Layers (Renderer.m r)) →
     RenderVisibleLayers r = (Ok tt, r)).
Proof.
  assert (Hrun : RenderVisibleLayers r
                 = renderLayers (visible_from 0 (tiled.Map.Layers (Renderer.m r))) r).
  { unfold RenderVisibleLayers. rewrite bind_run; simpl.
    unfold for_range. rewrite Z.sub_0_r. unfold len at 1. rewrite Nat2Z.id.
    by apply (visible_loop r [] (tiled.Map.Layers (Renderer.m r))). }
  split; [exact Hrun|].
  intros Hnone. rewrite Hrun. by rewrite visible_from_hidden.
Qed.

(** X14: a layer that has no tile for the first cell of a viewport that
    is not empty is not reported as an error: rendering it stops with an
    index-out-of-range panic at that cell, nothing drawn. *)
Theorem render_layer_short_of_tiles_panics r layer :
  let m := Renderer.m r in
  let b := Renderer.ResultBounds r in
  let i := offsetY b *! tiled.Map.Width m +! offsetX b in
  (tiled.Map.Orientation m = "hexagonal" ∨ tiled.Map.Orientation m = "orthogonal") →
  tiled.Map.RenderOrder m = "right-down" →
  offsetX b < tiled.Map.Width m → offsetY b < tiled.Map.Height m →
  1 <= limitX b → 1 <= limitY b →
  is_int (offsetX b + limitX b) → is_int (offsetY b + limitY b) →
  len (tiled.Layer.Tiles layer) <= i →
  _renderLayer layer r = (Panic (IndexOutOfRange i (len (tiled.Layer.Tiles layer))), r).
Proof.
  intros m b i Horient Horder HoX HoY HlX HlY HiX HiY Hshort.
  unfold _renderLayer. rewrite bind_run; simpl. fold m b.
  assert (String.eqb (tiled.Map.Orientation m) "hexagonal"
          || String.eqb (tiled.Map.Orientation m) "orthogonal" = true) as ->.
  { destruct Horient as [-> | ->]; reflexivity. }
  rewrite Horder; simpl.
  rewrite (int_add_small (offsetX b)), (int_add_small (offsetY b)) by done.
  set (xe := if tiled.Map.Width m <? _ then _ else _).
  set (ye := if tiled.Map.Height m <? _ then _ else _).
  assert (Hxe : offsetX b < xe) by (subst xe; destruct (Z.ltb_spec (tiled.Map.Width m) (offsetX b + limitX b)); lia).
  assert (Hye : offsetY b < ye) by (subst ye; destruct (Z.ltb_spec (tiled.Map.Height m) (offsetY b + limitY b)); lia).
  unfold for_range.
  destruct (Z.to_nat (ye - offsetY b)) as [|ny] eqn:Hny; [lia|].
  destruct (Z.to_nat (xe - offsetX b)) as [|nx] eqn:Hnx; [lia|].
  cbn [for_loop]. rewrite bind_run. cbn [for_loop]. rewrite bind_run.
  unfold _renderTile. rewrite bind_run. unfold lift, index. fold i.
  destruct (Z.leb_spec (len (tiled.Layer.Tiles layer)) i); [|lia].
  by rewrite orb_true_r.
Qed.

End composition.

(** ** Panning, single images, failures inside a layer *)

Lemma odd_test (z : Z) : 0 <= z → ((z %! 2) =? 1) = Z.odd z.
Proof.
  intros Hz. rewrite <- (xorb_false_r (Z.odd z)). exact (parity_test z false Hz).
Qed.

(** X15: how the stagger survives panning.  GetTilePosition is called
    with viewport-relative coordinates and startOdd = (offsetY is odd).
    With stagger axis Y the horizontal extent of the cell of map row Y is
    the same for a viewport starting at row offsetY as for one starting at
    row 0.  With stagger axis X (tiles at least 2 pixels high) the top edge
    of the cell of map column X at a given relative row is the same for a
    viewport at (offsetX, offsetY) as for one at (0, 0) exactly when
    offsetX and offsetY have the same parity. *)
Theorem stagger_under_panning (m : tiled.Map.t) :
  let e := Hexagonal.Init m in
  (tiled.Map.StaggerAxis m = tiled.AxisY →
   ∀ x offsetY Y, 0 <= offsetY <= Y → is_int Y →
     image.X (image.Min (Hexagonal.GetTilePosition e x (Y -! offsetY) ((offsetY %! 2) =? 1)))
     = image.X (image.Min (Hexagonal.GetTilePosition e x (Y -! 0) ((0 %! 2) =? 1))))
  ∧ (tiled.Map.StaggerAxis m = tiled.AxisX →
     sensible (tiled.Map.TileWidth m) → sensible (tiled.Map.TileHeight m) →
     2 <= tiled.Map.TileHeight m → 0 <= tiled.Map.HexSideLength m <= 2 ^ 30 →
     ∀ y offsetX offsetY X, 0 <= y <= 2 ^ 30 → 0 <= offsetX <= X → X <= 2 ^ 30 →
       0 <= offsetY →
       image.Y (image.Min (Hexagonal.GetTilePosition e (X -! offsetX) y ((offsetY %! 2) =? 1)))
       = image.Y (image.Min (Hexagonal.GetTilePosition e (X -! 0) y ((0 %! 2) =? 1)))
       ↔ Z.odd offsetX = Z.odd offsetY).
Proof.
  intros e. split.
  - intros Haxis x offsetY Y Hoff HY.
    apply (hexagonal_row_bump_anchored m x offsetY Y Haxis Hoff HY).
  - intros Haxis Htw Hth Hth2 Hside y offsetX offsetY X Hy HoX HX HoY. subst e.
    rewrite !int_sub_small by (unfold is_int; lia).
    rewrite !hexagonal_tile_position_eq by (first [done | lia]).
    rewrite Haxis. cbv zeta. simpl.
    rewrite (odd_test offsetY HoY). change ((0 %! 2) =? 1) with false.
    rewrite Z.sub_0_r, Z.odd_sub.
    assert (0 < tiled.Map.TileHeight m ÷ 2).
    { destruct (quot2_bounds (tiled.Map.TileHeight m)) as [Hp _].
      specialize (Hp ltac:(lia)). lia. }
    destruct (Z.odd X), (Z.odd offsetX), (Z.odd offsetY); simpl; split; intros Heq;
      first [done | lia].
Qed.

Section more.
Context `{Externals}.
Implicit Types (r : Renderer.t) (layer : tiled.Layer.t) (tile : tiled.LayerTile.t)
  (ts : tiled.Tileset.t).

(** A miss on a tile of a tileset of single images, the one entry of its
    id opening and decoding. *)
Lemma getTileImage_single_miss r tile ts (before after : list tiled.TilesetTile.t)
    (t : tiled.TilesetTile.t) (image : tiled.Image.t) (img : Img) :
  tiled.LayerTile.Tileset tile = Some ts →
  Renderer.tileCache r !! cacheKey ts (tiled.LayerTile.ID tile) = None →
  tiled.Tileset.Image ts = None →
  tiled.Tileset.Tiles ts = before ++ t :: after →
  tiled.TilesetTile.ID t = tiled.LayerTile.ID tile →
  Forall (λ t', tiled.TilesetTile.ID t' ≠ tiled.LayerTile.ID tile) (before ++ after) →
  tiled.TilesetTile.Image t = Some image →
  loads r ts (tiled.Image.Source image) = inr img →
  getTileImage tile r
  = (RotateTileImage (Renderer.engine r) tile (Some img),
     set_tileCache (<[cacheKey ts (tiled.LayerTile.ID tile) := img]> (Renderer.tileCache r)) r).
Proof.
  intros Hts Hmiss Himage Htiles Hid Hothers Ht Hloads.
  apply Forall_app in Hothers as [Hbefore Hafter].
  rewrite (getTileImage_miss _ _ _ Hts Hmiss), Himage, bind_run, Htiles.
  rewrite (loadTileImages_skip_app _ _ _ _ _ _ Hbefore).
  rewrite (loadTileImages_hit _ _ _ _ _ _ _ _ Hid Ht Hloads).
  by rewrite (loadTileImages_skip _ _ _ _ _ Hafter).
Qed.

(** X16: a tile of a tileset of single images is loaded once.  After a
    miss whose file opens and decodes, resolving any tile with the same
    tileset and id, whatever its flip flags, needs no file: whatever file
    system the renderer holds by then, one on which nothing opens included,
    getTileImage returns the image decoded at the miss with that tile's
    flips applied, and changes nothing.  The cached image is the decoded
    one, not the flipped one. *)
Theorem single_image_is_resolved_once r tile ts (before after : list tiled.TilesetTile.t)
    (t : tiled.TilesetTile.t) (image : tiled.Image.t) (img : Img) :
  tiled.LayerTile.Tileset tile = Some ts →
  Renderer.tileCache r !! cacheKey ts (tiled.LayerTile.ID tile) = None →
  tiled.Tileset.Image ts = None →
  tiled.Tileset.Tiles ts = before ++ t :: after →
  tiled.TilesetTile.ID t = tiled.LayerTile.ID tile →
  Forall (λ t', tiled.TilesetTile.ID t' ≠ tiled.LayerTile.ID tile) (before ++ after) →
  tiled.TilesetTile.Image t = Some image →
  loads r ts (tiled.Image.Source image) = inr img →
  let r' := snd (getTileImage tile r) in
  Renderer.tileCache r' !! cacheKey ts (tiled.LayerTile.ID tile) = Some img
  ∧ ∀ tile' (disk : option (string → error + File)),
      tiled.LayerTile.Tileset tile' = Some ts →
      tiled.LayerTile.ID tile' = tiled.LayerTile.ID tile →
      getTileImage tile' (set_fs disk r')
        = (RotateTileImage (Renderer.engine r) tile' (Some img), set_fs disk r').
Proof.
  intros Hts Hmiss Himage Htiles Hid Hothers Ht Hloads r'. subst r'.
  rewrite (getTileImage_single_miss r tile ts before after t image img) by done. simpl.
  split; [apply lookup_insert_eq|].
  intros tile' disk Hts' Hid'.
  apply (getTileImage_hit (set_fs disk (set_tileCache _ r)) tile' ts img Hts').
  simpl. rewrite Hid'. apply lookup_insert_eq.
Qed.

(** What stops the first cell stops the layer. *)
Lemma renderLayer_stops_at_first_cell r layer (res : result unit) r' :
  let m := Renderer.m r in
  let b := Renderer.ResultBounds r in
  (tiled.Map.Orientation m = "hexagonal" ∨ tiled.Map.Orientation m = "orthogonal") →
  tiled.Map.RenderOrder m = "right-down" →
  offsetX b < tiled.Map.Width m → offsetY b < tiled.Map.Height m →
  1 <= limitX b → 1 <= limitY b →
  is_int (offsetX b + limitX b) → is_int (offsetY b + limitY b) →
  _renderTile layer (offsetY b *! tiled.Map.Width m +! offsetX b) 0 0
    ((offsetY b %! 2) =? 1) r = (res, r') →
  (∀ u, res ≠ Ok u) →
  _renderLayer layer r = (res, r').
Proof.
  intros m b Horient Horder HoX HoY HlX HlY HiX HiY Hcell Hstop.
  unfold _renderLayer. rewrite bind_run; simpl. fold m b.
  assert (String.eqb (tiled.Map.Orientation m) "hexagonal"
          || String.eqb (tiled.Map.Orientation m) "orthogonal" = true) as ->.
  { destruct Horient as [-> | ->]; reflexivity. }
  rewrite Horder; simpl.
  rewrite (int_add_small (offsetX b)), (int_add_small (offsetY b)) by done.
  set (xe := if tiled.Map.Width m <? _ then _ else _).
  set (ye := if tiled.Map.Height m <? _ then _ else _).
  assert (Hxe : offsetX b < xe).
  { subst xe. destruct (Z.ltb_spec (tiled.Map.Width m) (offsetX b + limitX b)); lia. }
  assert (Hye : offsetY b < ye).
  { subst ye. destruct (Z.ltb_spec (tiled.Map.Height m) (offsetY b + limitY b)); lia. }
  unfold for_range.
  destruct (Z.to_nat (ye - offsetY b)) as [|ny] eqn:Hny; [lia|].
  destruct (Z.to_nat (xe - offsetX b)) as [|nx] eqn:Hnx; [lia|].
  cbn [for_loop]. rewrite bind_run. cbn [for_loop]. rewrite bind_run.
  assert (Hzero : ∀ z, z -! z = 0).
  { intros z. unfold int_sub. by rewrite Z.sub_diag. }
  rewrite !Hzero, Hcell.
  destruct res as [u|e|p]; [by destruct (Hstop u) | done | done].
Qed.

(** X17: a file that fails to open or decode aborts the rendering of the
    layer.  When the first cell of a viewport that is not empty holds a
    tile of an atlas tileset that is not cached and whose atlas fails to
    load with an error, _renderLayer returns that error and nothing is
    drawn or cached. *)
Theorem render_layer_aborts_on_io_error r layer tile ts (image : tiled.Image.t) (e : error) :
  let m := Renderer.m r in
  let b := Renderer.ResultBounds r in
  let i := offsetY b *! tiled.Map.Width m +! offsetX b in
  (tiled.Map.Orientation m = "hexagonal" ∨ tiled.Map.Orientation m = "orthogonal") →
  tiled.Map.RenderOrder m = "right-down" →
  offsetX b < tiled.Map.Width m → offsetY b < tiled.Map.Height m →
  1 <= limitX b → 1 <= limitY b →
  is_int (offsetX b + limitX b) → is_int (offsetY b + limitY b) →
  0 <= i → tiled.Layer.Tiles layer !! Z.to_nat i = Some tile →
  tiled.LayerTile.IsNil tile = false →
  tiled.LayerTile.Tileset tile = Some ts →
  Renderer.tileCache r !! cacheKey ts (tiled.LayerTile.ID tile) = None →
  tiled.Tileset.Image ts = Some image →
  loads r ts (tiled.Image.Source image) = inl e →
  _renderLayer layer r = (Err e, r).
Proof.
  intros m b i Horient Horder HoX HoY HlX HlY HiX HiY Hi Htile Hnil Hts Hmiss Himage Hloads.
  apply renderLayer_stops_at_first_cell; try done.
  fold m b i. unfold _renderTile. rewrite bind_run. unfold lift.
  rewrite (index_in_range _ _ _ Hi Htile), Hnil, bind_run.
  rewrite (getTileImage_miss _ _ _ Hts Hmiss), Himage.
  unfold loads in Hloads.
  rewrite !bind_run, open_run.
  destruct (opened r _) as [e'|sf]; [by injection Hloads as ->|].
  by rewrite Hloads.
Qed.

End more.

Section single_cell.
Context `{Externals}.
Implicit Types (r : Renderer.t) (layer : tiled.Layer.t) (tile : tiled.LayerTile.t).

(** X8: a viewport of one cell.  With limits (1, 1) and the offset inside
    the map, rendering a layer visits the one cell at row offsetY and
    column offsetX of the layer, that is tile offsetY*width + offsetX, and
    when its tile is cached draws it once, at the rectangle the engine
    gives for the viewport-relative cell (0, 0) with startOdd telling
    whether offsetY is odd. *)
Theorem render_one_cell_viewport r layer tile (ts : tiled.Tileset.t) (img : Img)
    (e : Hexagonal.HexagonalRendererEngine) :
  let m := Renderer.m r in
  let b := Renderer.ResultBounds r in
  let i := offsetY b * tiled.Map.Width m + offsetX b in
  (tiled.Map.Orientation m = "hexagonal" ∨ tiled.Map.Orientation m = "orthogonal") →
  tiled.Map.RenderOrder m = "right-down" →
  Renderer.engine r = Hexagonal.engine e →
  limitX b = 1 → limitY b = 1 →
  0 <= offsetX b < tiled.Map.Width m → 0 <= offsetY b < tiled.Map.Height m →
  tiled.Map.Width m <= 2 ^ 30 → tiled.Map.Height m <= 2 ^ 30 →
  tiled.Layer.Tiles layer !! Z.to_nat i = Some tile →
  tiled.LayerTile.IsNil tile = false →
  tiled.LayerTile.Tileset tile = Some ts →
  Renderer.tileCache r !! cacheKey ts (tiled.LayerTile.ID tile) = Some img →
  let pos := Hexagonal.GetTilePosition e 0 0 (Z.odd (offsetY b)) in
  let src := oriented tile img in
  _renderLayer layer r
  = (Ok tt,
     set_Result
       (if tiled.lt_one (tiled.Layer.Opacity layer)
        then draw_DrawMask (Renderer.Result r) pos src (image.Min (Img_Bounds src))
               (tiled.alpha255 (tiled.Layer.Opacity layer))
        else draw_Draw (Renderer.Result r) pos src (image.Min (Img_Bounds src))) r).
Proof.
  intros m b i Horient Horder Hengine HlX HlY HoX HoY Hw Hh Htile Hnil Hts Hhit pos src.
  unfold _renderLayer. rewrite bind_run; simpl. fold m b.
  assert (String.eqb (tiled.Map.Orientation m) "hexagonal"
          || String.eqb (tiled.Map.Orientation m) "orthogonal" = true) as ->.
  { destruct Horient as [-> | ->]; reflexivity. }
  rewrite Horder; simpl. rewrite HlX, HlY.
  rewrite (int_add_small (offsetX b)), (int_add_small (offsetY b)) by (unfold is_int; lia).
  destruct (Z.ltb_spec (tiled.Map.Width m) (offsetX b + 1)); [lia|].
  destruct (Z.ltb_spec (tiled.Map.Height m) (offsetY b + 1)); [lia|].
  unfold for_range.
  replace (Z.to_nat (offsetY b + 1 - offsetY b)) with 1%nat by lia.
  replace (Z.to_nat (offsetX b + 1 - offsetX b)) with 1%nat by lia.
  cbn [for_loop]. rewrite bind_run. cbn [for_loop]. rewrite bind_run.
  assert (Hzero : ∀ z, z -! z = 0).
  { intros z. unfold int_sub. by rewrite Z.sub_diag. }
  assert (Hi : offsetY b *! tiled.Map.Width m +! offsetX b = i).
  { assert (0 <= offsetY b * tiled.Map.Width m <= 2 ^ 30 * 2 ^ 30).
    { split; [nia|]. apply Z.mul_le_mono_nonneg; lia. }
    rewrite int_mul_small by (unfold is_int; lia).
    apply int_add_small. unfold is_int; lia. }
  rewrite !Hzero, Hi, (odd_test (offsetY b)) by lia.
  assert (Hpos : 0 <= i) by (subst i; nia).
  rewrite (renderTile_cached_run r layer i 0 0 (Z.odd (offsetY b)) tile ts img e)
    by done.
  reflexivity.
Qed.

End single_cell.

(** ** The added properties on the small world *)

(** Comparisons of literals. *)
Ltac by_computation :=
  vm_compute; repeat split;
  first [ reflexivity | (let Hc := fresh "Hc" in intro Hc; discriminate Hc) ].

Lemma NewRenderer_by_orientation_witness :
  @NewRendererWithFileSystem Fixture.world Cases.isometric None
    = Err ErrUnsupportedOrientation
  ∧ ∃ r, @NewRendererWithFileSystem Fixture.world (Fixture.hexmap tiled.AxisY) None = Ok r
        ∧ Renderer.ResultBounds r = mkBounds 0 0 2 2
        ∧ Renderer.tileCache r = ∅.
Proof.
  destruct (@NewRenderer_by_orientation Fixture.world Cases.isometric None) as [Hiso _].
  destruct (@NewRenderer_by_orientation Fixture.world (Fixture.hexmap tiled.AxisY) None)
    as [_ Hhex].
  split.
  - apply Hiso; by_computation.
  - destruct Hhex as (r & Hr & _ & _ & Hb & Hc & _);
      [reflexivity | by_computation | by_computation | by_computation
      | by_computation | by_computation | right; reflexivity | by_computation |].
    exists r. split; [exact Hr|]. split; [exact Hb | exact Hc].
Defined.

Lemma unsupported_render_order_is_rejected_witness :
  let r := Cases.on_map "hexagonal" "left-up" in
  _renderLayer Fixture.layer0 r = (Err ErrUnsupportedRenderOrder, r)
  ∧ RenderLayer 0 r = (Err ErrUnsupportedRenderOrder, r).
Proof.
  intros r.
  destruct (@unsupported_render_order_is_rejected Fixture.world r) as [Hlayer Hid].
  - left. by_computation.
  - split; [apply Hlayer|]. apply (Hid 0 Fixture.layer0); [lia | reflexivity].
Defined.

Lemma render_layer_of_nil_tiles_is_idle_witness :
  let r := Cases.plain tiled.AxisX ∅ None in
  _renderLayer Cases.empty_cells r = (Ok tt, r).
Proof.
  intros r.
  apply (@render_layer_of_nil_tiles_is_idle Fixture.world r Cases.empty_cells);
    try by_computation.
  - left. reflexivity.
  - repeat constructor.
Defined.

Lemma atlas_is_resolved_once_witness :
  let r := Cases.plain tiled.AxisX ∅ None in
  let r' := @set_fs Fixture.world (Some Cases.locked)
              (snd (getTileImage (Fixture.tile_of Fixture.atlas 0) r)) in
  getTileImage (Fixture.tile_of Fixture.atlas 1) r'
  = (RotateTileImage (Renderer.engine r) (Fixture.tile_of Fixture.atlas 1)
       (Some (@cell Fixture.world Fixture.atlas Fixture.atlas_png 1)), r').
Proof.
  intros r r'.
  destruct (@atlas_is_resolved_once Fixture.world r (Fixture.tile_of Fixture.atlas 0)
              Fixture.atlas (tiled.Image.mk "atlas.png")
              (Fixture.atlas_png : @Img Fixture.world))
    as [_ Hagain];
    [reflexivity | by_computation | reflexivity | by_computation
    | by_computation | by_computation |].
  apply Hagain; [reflexivity | by_computation].
Defined.

Lemma getTileImage_io_error_witness :
  let r := Cases.plain tiled.AxisX ∅ (Some Cases.locked) in
  getTileImage (Fixture.tile_of Fixture.atlas 0) r
    = (Err (ErrExternal "permission denied"), r)
  ∧ getTileImage (Fixture.tile_of Fixture.singles 1) r
    = (Err (ErrExternal "permission denied"), r).
Proof.
  intros r.
  destruct (@getTileImage_io_error Fixture.world r (Fixture.tile_of Fixture.atlas 0)
              Fixture.atlas (ErrExternal "permission denied")) as [Hatlas _];
    [reflexivity | by_computation |].
  destruct (@getTileImage_io_error Fixture.world r (Fixture.tile_of Fixture.singles 1)
              Fixture.singles (ErrExternal "permission denied")) as [_ Hsingle];
    [reflexivity | by_computation |].
  split.
  - apply (Hatlas (tiled.Image.mk "atlas.png")); [reflexivity | by_computation].
  - apply (Hsingle [tiled.TilesetTile.mk 0 (Some (tiled.Image.mk "a.png"))]
             (tiled.TilesetTile.mk 1 (Some (tiled.Image.mk "b.png"))) []
             (tiled.Image.mk "b.png"));
      [reflexivity | reflexivity | | reflexivity | reflexivity | by_computation].
    repeat constructor. by_computation.
Defined.

Lemma renderTile_unknown_tile_panics_witness :
  let r := Cases.plain tiled.AxisX ∅ None in
  _renderTile (Cases.starts_with (Fixture.tile_of Fixture.singles 7)) 0 0 0 false r
  = (Panic NilDereference, r).
Proof.
  intros r.
  apply (@renderTile_unknown_tile_panics Fixture.world r _ 0 0 0 false
           (Fixture.tile_of Fixture.singles 7) Fixture.singles
           (Hexagonal.Init (Fixture.hexmap tiled.AxisX)));
    [reflexivity | lia | reflexivity | reflexivity | reflexivity | by_computation
    | reflexivity |].
  repeat constructor; by_computation.
Defined.

Lemma hexagonal_tile_position_witness :
  let pos := Hexagonal.GetTilePosition (Hexagonal.Init (Fixture.hexmap tiled.AxisX)) 1 1 false in
  image.Min pos = image.Pt 3 6 ∧ image.Dx pos = 4 ∧ image.Dy pos = 8.
Proof.
  intros pos.
  destruct (hexagonal_tile_position (Fixture.hexmap tiled.AxisX) 1 1 false) as [HX _];
    [by_computation | by_computation | by_computation | by_computation | by_computation |].
  apply HX. reflexivity.
Defined.

Lemma hexagonal_cells_fit_final_image_witness :
  let e := Hexagonal.Init (Fixture.hexmap tiled.AxisY) in
  let pos := Hexagonal.GetTilePosition e 1 1 true in
  let size := Hexagonal.GetFinalImageSize e (mkBounds 0 0 2 2) in
  image.Min size = image.Pt 0 0
  ∧ 0 <= image.X (image.Min pos)
  ∧ image.X (image.Min pos) + 4 <= image.X (image.Max size)
  ∧ 0 <= image.Y (image.Min pos)
  ∧ image.Y (image.Min pos) + 4 <= image.Y (image.Max size).
Proof.
  intros e pos size.
  apply (hexagonal_cells_fit_final_image (Fixture.hexmap tiled.AxisY) (mkBounds 0 0 2 2)
           1 1 true); try by_computation.
  right. reflexivity.
Defined.

Lemma Clear_resets_what_was_rendered_witness :
  let r := Fixture.renderer tiled.AxisX (0, 0) in
  let r' := snd (RenderLayer 0 r) in
  fst (Clear r') = fst (Clear r)
  ∧ Clear (snd (Clear r)) = (fst (Clear r), snd (Clear r)).
Proof.
  intros r r'.
  destruct (@Clear_resets_what_was_rendered Fixture.world r r') as (Hfst & _ & Hagain).
  - apply keeps_RenderLayer.
  - split; [exact Hfst | exact Hagain].
Defined.

Lemma render_layer_short_of_tiles_panics_witness :
  let r := Cases.plain tiled.AxisX ∅ None in
  _renderLayer Cases.no_tiles r = (Panic (IndexOutOfRange 0 0), r).
Proof.
  intros r.
  apply (@render_layer_short_of_tiles_panics Fixture.world r Cases.no_tiles);
    try by_computation.
  left. reflexivity.
Defined.

Lemma stagger_under_panning_witness :
  let eY := Hexagonal.Init (Fixture.hexmap tiled.AxisY) in
  let eX := Hexagonal.Init (Fixture.hexmap tiled.AxisX) in
  image.X (image.Min (Hexagonal.GetTilePosition eY 0 (1 -! 1) ((1 %! 2) =? 1)))
  = image.X (image.Min (Hexagonal.GetTilePosition eY 0 (1 -! 0) ((0 %! 2) =? 1)))
  ∧ (image.Y (image.Min (Hexagonal.GetTilePosition eX (1 -! 1) 0 ((0 %! 2) =? 1)))
     = image.Y (image.Min (Hexagonal.GetTilePosition eX (1 -! 0) 0 ((0 %! 2) =? 1)))
     ↔ Z.odd 1 = Z.odd 0).
Proof.
  intros eY eX.
  destruct (stagger_under_panning (Fixture.hexmap tiled.AxisY)) as [HY _].
  destruct (stagger_under_panning (Fixture.hexmap tiled.AxisX)) as [_ HX].
  split.
  - apply HY; by_computation.
  - apply HX; by_computation.
Defined.

Lemma single_image_is_resolved_once_witness :
  let r := Cases.plain tiled.AxisX ∅ None in
  let r' := snd (getTileImage (Fixture.tile_of Fixture.singles 0) r) in
  Renderer.tileCache r' !! cacheKey Fixture.singles 0 = Some Fixture.a_png
  ∧ getTileImage Cases.flipped (@set_fs Fixture.world (Some Cases.locked) r')
    = (RotateTileImage (Renderer.engine r) Cases.flipped (Some Fixture.a_png),
       @set_fs Fixture.world (Some Cases.locked) r').
Proof.
  intros r r'.
  destruct (@single_image_is_resolved_once Fixture.world r
              (Fixture.tile_of Fixture.singles 0) Fixture.singles []
              [tiled.TilesetTile.mk 1 (Some (tiled.Image.mk "b.png"))]
              (tiled.TilesetTile.mk 0 (Some (tiled.Image.mk "a.png")))
              (tiled.Image.mk "a.png") (Fixture.a_png : @Img Fixture.world))
    as [Hcached Hagain];
    [reflexivity | by_computation | reflexivity | reflexivity | reflexivity
    | | reflexivity | by_computation |].
  - repeat constructor. by_computation.
  - split; [exact Hcached|]. apply Hagain; reflexivity.
Defined.

Lemma render_layer_aborts_on_io_error_witness :
  let r := Cases.plain tiled.AxisX ∅ (Some Cases.locked) in
  _renderLayer (Cases.starts_with (Fixture.tile_of Fixture.atlas 0)) r
  = (Err (ErrExternal "permission denied"), r).
Proof.
  intros r.
  apply (@render_layer_aborts_on_io_error Fixture.world r _
           (Fixture.tile_of Fixture.atlas 0) Fixture.atlas (tiled.Image.mk "atlas.png")
           (ErrExternal "permission denied")); try by_computation.
  left. reflexivity.
Defined.

Lemma render_one_cell_viewport_witness :
  let r := set_ResultBounds (mkBounds 1 1 1 1)
             (Cases.plain tiled.AxisX {[1 := Fixture.a_png]} None) in
  let e := Hexagonal.Init (Fixture.hexmap tiled.AxisX) in
  let src := @oriented Fixture.world Cases.flipped Fixture.a_png in
  _renderLayer (Cases.ends_with Cases.flipped) r
  = (Ok tt,
     set_Result
       (@draw_Draw Fixture.world (Renderer.Result r)
          (Hexagonal.GetTilePosition e 0 0 (Z.odd 1)) src
          (image.Min (@Img_Bounds Fixture.world src))) r).
Proof.
  intros r e src.
  apply (@render_one_cell_viewport Fixture.world r (Cases.ends_with Cases.flipped)
           Cases.flipped Fixture.singles (Fixture.a_png : @Img Fixture.world) e);
    [left; reflexivity | reflexivity | reflexivity | reflexivity | reflexivity
    | by_computation | by_computation | by_computation | by_computation
    | reflexivity | reflexivity | reflexivity | by_computation].
Defined.
